(** * StopAlert PC companion: the device file-sync protocol engine

    A shallow embedding of the serial protocol part of [pc_companion.py]
    (inside the [if ACT_CONNECT_DEV:] block): the helpers [wait_ready],
    [read_32le] and [calculate_checksum], the listing block, the dump loop
    and the upload block, together with the properties the specification
    states about them. The connection preamble (ping and firmware string),
    the table printed by [--list-files] and [prepare_fs] are not modelled.

    Modelling choices.
    - A byte is a [Byte.byte]; a Python [int] is a [Z]; a [bytes] value is a
      [list byte]; a [str] is a [string] (code points below 256).
    - The serial port is a stream of [item]s still to be delivered by the
      device. [Data b] is a byte; [Gap] is a silence that outlasts the
      timeout of the read call waiting on it. The end of the stream is a
      silence that never ends. This is pyserial's contract for a port opened
      with a timeout: [read(n)] returns at most [n] bytes and fewer when the
      timeout strikes.
    - Every [device.write], every [device.read], every file creation and file
      write on the PC is recorded, oldest first, in the [trace]; every
      [print] is recorded in [out].
    - [exit(1)] and uncaught exceptions are outcomes of the computation.
    - The three [while True] loops are bounded by the length of what they
      consume; the bound is never reached ([read_listing_total],
      [send_block_total], [send_blocks_total]).
    - The two waiting loops driven by [timer()] are bounded by the number of
      timed-out reads that fit in their window.

    The modules after the protocol engine embed pure parts of the rest of
    the program: [Merge] and [Routes] the merging of stopping patterns and
    the grouping of routes of [gtfs.py], [Generate] the helpers [fix_dir]
    and [prep_write_seq] of the generator, [Ptv] the choice of datasets of
    [ptvgtfs.py], and [Cli] the route specifiers of the command line. Files,
    CSV parsing, floating point and the network are left out. *)

From Stdlib Require Import Strings.String Strings.Ascii Strings.Byte.
From Stdlib Require Import List ZArith Lia Bool Permutation.
Import ListNotations.
Local Open Scope Z_scope.

Set Implicit Arguments.

(** ** Bytes and integers *)

Definition byte_val (b : byte) : Z := Z.of_N (Byte.to_N b).

(** [bytes([z])] for an int that is in range at every call site (see
    [calculate_checksum_range] and [block_sz_range]). *)
Definition byte_of_Z (z : Z) : byte :=
  match Byte.of_N (Z.to_N (z mod 256)) with
  | Some b => b
  | None => x00
  end.

(** Python's [sum(array)] over a [bytes] object. *)
Definition sum_bytes (array : list byte) : Z :=
  fold_left (fun acc b => acc + byte_val b) array 0.

(** Python's [sum([...])] over a list of ints. *)
Definition sum_ints (xs : list Z) : Z := fold_left Z.add xs 0.

(** [struct.unpack('<L', data)[0]] *)
Definition unpack_le (data : list byte) : Z :=
  fold_right (fun b acc => byte_val b + 256 * acc) 0 data.

(** ** calculate_checksum (pc_companion.py:558) *)

Definition calculate_checksum (args : list (list byte)) : Z :=
  Z.land (0x100 - Z.land (sum_ints (map sum_bytes args)) 0xFF) 0xFF.

(** The test of line 639, [calculate_checksum(...) != checksum]: recompute
    and compare. *)
Definition checksum_mismatch (args : list (list byte)) (checksum : Z) : bool :=
  negb (calculate_checksum args =? checksum).

(** ** The world the script runs in *)

(** What the device will put on the wire. *)
Inductive item : Type :=
| Data (b : byte)
| Gap.

(** Calls that leave the process, oldest first in the [trace]. *)
Inductive event : Type :=
| Tx (data : list byte)                    (* device.write(data) *)
| Rx (size : Z) (got : list byte)          (* device.read(size) returned got *)
| RxUntil (expected : byte) (got : list byte) (* device.read_until(expected) *)
| Create (path : string)                   (* open(path, 'wb') *)
| Put (path : string) (data : list byte).  (* f.write(data) on that file *)

(** The lines the script prints, one constructor per [print] call of the
    device part of the script, named after its text. *)
Inductive msg : Type :=
| ErrReadyTimeout                         (* 539 *)
| ErrReadyInvalid (b : byte)              (* 542 *)
| ErrIncompleteRead (got : nat)           (* 553 *)
| DbgRetrievingInfo                       (* 571 *)
| DbgFsStats (total used : Z)             (* 575 *)
| InfoRetrievingListing                   (* 578 *)
| InfoDumping                             (* 607 *)
| InfoDumpFile (dev_path pc_path : string) (* 610 *)
| ErrNotExist (dev_path : string)         (* 616 *)
| ErrCannotOpen (dev_path : string)       (* 620 *)
| WrnSizeChanged (old new : Z)            (* 624 *)
| DbgRetrieved (got : nat) (size checksum : Z) (* 631 *)
| ErrIncompleteData (got : nat) (size : Z) (* 634 *)
| ErrChecksumFailed                       (* 640 *)
| InfoRemovingAll                         (* 651 *)
| ErrDeleteFailed                         (* 655 *)
| ErrUnexpectedResult (b : byte)          (* 658 *)
| InfoConfirmReformat                     (* 661 *)
| ErrDecisionTimeout                      (* 672 *)
| InfoDeclined                            (* 676 *)
| ErrUnexpectedDecision (b : byte)        (* 679 *)
| InfoReformatting                        (* 682 *)
| ErrReformatTimeout                      (* 690 *)
| ErrReformatFailed                       (* 694 *)
| ErrUnexpectedReformat (b : byte)        (* 697 *)
| InfoNotReformatted                      (* 702 *)
| InfoUploading                           (* 707 *)
| InfoUploadFile (pc_path dev_path : string) (* 714 *)
| ErrOpenTimeout (dev_path : string)      (* 719 *)
| ErrCannotCreate (dev_path : string)     (* 723 *)
| ErrUnexpectedOpen (b : byte)            (* 725 *)
| DbgComplete                             (* 731 *)
| ErrWriteTimeout                         (* 744 *)
| ErrChecksumResend                       (* 750 *)
| ErrWriteStuck (dev_path : string) (offset : Z) (* 753 *)
| ErrUnexpectedBlock (b : byte)           (* 756 *)
| DbgWritten (len : nat) (dev_path : string) (offset : Z) (* 759 *)
| DbgTerminating.                         (* 762 *)

Record world : Type := mkWorld {
  rx : list item;                     (* still to come from the device *)
  trace : list event;                 (* calls made so far *)
  out : list msg;                     (* lines printed so far *)
  disk : list (string * list byte)    (* files on the PC: path, content *)
}.

(** Uncaught Python exceptions the modelled code can raise. *)
Inductive exn : Type :=
| IndexError
| KeyError
| UnicodeDecodeError
| UnicodeEncodeError.

Inductive outcome (A : Type) : Type :=
| Done (a : A)
| Exit (code : Z)        (* exit(code) *)
| Raise (e : exn)        (* the script dies on an uncaught exception *)
| OutOfFuel.             (* a loop bound of the model was too small *)

Arguments Exit {A} code.
Arguments Raise {A} e.
Arguments OutOfFuel {A}.

Definition M (A : Type) : Type := world -> outcome A * world.

Definition ret {A : Type} (a : A) : M A := fun w => (Done a, w).

Definition bind {A B : Type} (m : M A) (k : A -> M B) : M B :=
  fun w =>
    match m w with
    | (Done a, w') => k a w'
    | (Exit c, w') => (Exit c, w')
    | (Raise e, w') => (Raise e, w')
    | (OutOfFuel, w') => (OutOfFuel, w')
    end.

Notation "x <- m ;; k" := (bind m (fun x => k))
  (at level 61, m at next level, right associativity).
Notation "m ;;; k" := (bind m (fun _ => k))
  (at level 61, right associativity).

Definition exit {A : Type} (code : Z) : M A := fun w => (Exit code, w).
Definition raise {A : Type} (e : exn) : M A := fun w => (Raise e, w).
Definition out_of_fuel {A : Type} : M A := fun w => (OutOfFuel, w).

Definition when (c : bool) (m : M unit) : M unit := if c then m else ret tt.

Definition log_event (e : event) (w : world) : world :=
  mkWorld (rx w) (trace w ++ [e]) (out w) (disk w).

Definition print (m : msg) : M unit :=
  fun w => (Done tt, mkWorld (rx w) (trace w) (out w ++ [m]) (disk w)).

(** *** The serial port *)

(** [read(size)]: up to [size] bytes, cut short by a silence. *)
Fixpoint take_rx (size : Z) (s : list item) : list byte * list item :=
  match s with
  | [] => ([], [])
  | Gap :: rest => if size <=? 0 then ([], s) else ([], rest)
  | Data b :: rest =>
      if size <=? 0 then ([], s)
      else let (got, rest') := take_rx (size - 1) rest in (b :: got, rest')
  end.

(** [read_until(expected)]: up to and including [expected], cut short by a
    silence. *)
Fixpoint take_until (expected : byte) (s : list item) : list byte * list item :=
  match s with
  | [] => ([], [])
  | Gap :: rest => ([], rest)
  | Data b :: rest =>
      if Byte.eqb b expected then ([b], rest)
      else let (got, rest') := take_until expected rest in (b :: got, rest')
  end.

Definition device_read (size : Z) : M (list byte) :=
  fun w =>
    let (got, rest) := take_rx size (rx w) in
    (Done got, mkWorld rest (trace w ++ [Rx size got]) (out w) (disk w)).

Definition device_read_until (expected : byte) : M (list byte) :=
  fun w =>
    let (got, rest) := take_until expected (rx w) in
    (Done got, mkWorld rest (trace w ++ [RxUntil expected got]) (out w) (disk w)).

Definition device_write (data : list byte) : M unit :=
  fun w => (Done tt, log_event (Tx data) w).

(** *** Python helpers *)

Fixpoint bytes_eqb (a b : list byte) : bool :=
  match a, b with
  | [], [] => true
  | x :: a', y :: b' => Byte.eqb x y && bytes_eqb a' b'
  | _, _ => false
  end.

(** [result[0]] *)
Definition index0 (result : list byte) : M byte :=
  match result with
  | [] => raise IndexError
  | b :: _ => ret b
  end.

Definition is_ascii (b : byte) : bool := byte_val b <? 128.

(** [data.decode('ascii')] *)
Definition decode_ascii (data : list byte) : M string :=
  if forallb is_ascii data then ret (string_of_list_byte data)
  else raise UnicodeDecodeError.

(** [s.encode('ascii')] *)
Definition encode_ascii (s : string) : M (list byte) :=
  if forallb is_ascii (list_byte_of_string s) then ret (list_byte_of_string s)
  else raise UnicodeEncodeError.

(** ** wait_ready (pc_companion.py:536) *)

Definition wait_ready : M unit :=
  result <- device_read 1 ;;
  if (length result =? 0)%nat then
    print ErrReadyTimeout ;;; exit 1
  else if negb (bytes_eqb result [x3e]) then
    b <- index0 result ;;
    print (ErrReadyInvalid b) ;;; exit 1
  else ret tt.

(** ** read_32le (pc_companion.py:550) *)

Definition read_32le : M (Z * list byte) :=
  data <- device_read 4 ;;
  if negb (length data =? 4)%nat then
    print (ErrIncompleteRead (length data)) ;;; exit 1
  else ret (unpack_le data, data).

(** ** Configuration (the globals set from the command line) *)

Record config : Type := mkConfig {
  VERBOSE : bool;
  FS_PATH : string;
  NO_REFORMAT : bool;
  (** How many timed-out reads fit in the window
      [REFORMAT_REQ_TIMEOUT + DEVICE_TIMEOUT] of the loop at line 667. *)
  req_polls : nat;
  (** The same for [REFORMAT_TIMEOUT + DEVICE_TIMEOUT], line 685. *)
  fmt_polls : nat
}.

(** ** The listing (pc_companion.py:568-587) *)

(** [fs_listing: dict[str, int]]; a Python dict keeps the order in which its
    keys were first inserted, and the dump loop iterates in that order. *)
Definition dict : Type := list (string * Z).

Fixpoint dict_set (d : dict) (k : string) (v : Z) : dict :=
  match d with
  | [] => [(k, v)]
  | (k', v') :: d' =>
      if String.eqb k k' then (k, v) :: d' else (k', v') :: dict_set d' k v
  end.

Fixpoint dict_get (d : dict) (k : string) : option Z :=
  match d with
  | [] => None
  | (k', v') :: d' => if String.eqb k k' then Some v' else dict_get d' k
  end.

(** [fs_listing[k]] *)
Definition dict_lookup (d : dict) (k : string) : M Z :=
  match dict_get d k with
  | Some v => ret v
  | None => raise KeyError
  end.

(** The [while True] loop of line 580. Every turn that goes on has taken
    four bytes off the wire, so [S (length rx)] turns are enough. *)
Fixpoint listing_loop (fuel : nat) (fs_listing : dict) : M dict :=
  match fuel with
  | O => out_of_fuel
  | S fuel' =>
      sz <- read_32le ;;
      raw <- device_read_until x00 ;;
      path <- decode_ascii (removelast raw) ;;
      if (fst sz =? 0xFFFFFFFF) && (String.length path =? 0)%nat then
        ret fs_listing
      else
        listing_loop fuel' (dict_set fs_listing path (fst sz))
  end.

Definition read_listing (fs_listing : dict) : M dict :=
  fun w => listing_loop (S (length (rx w))) fs_listing w.

Definition retrieve_fs_listing (cfg : config) : M dict :=
  when (VERBOSE cfg)
    (print DbgRetrievingInfo ;;;
     device_write [x49; x0a] ;;;                     (* b'I\n' *)
     total <- read_32le ;;
     used <- read_32le ;;
     print (DbgFsStats (fst total) (fst used)) ;;;
     wait_ready) ;;;
  print InfoRetrievingListing ;;;
  device_write [x4c; x0a] ;;;                        (* b'L\n' *)
  fs_listing <- read_listing [] ;;
  wait_ready ;;;
  ret fs_listing.

(** ** The dump (pc_companion.py:607-645) *)

Definition LF : string := String "010"%char EmptyString.

(** [os.path.join(a, b)] of posixpath. *)
Definition os_path_join (a b : string) : string :=
  if String.prefix "/" b then b
  else if (String.length a =? 0)%nat
          || String.eqb (String.substring (String.length a - 1) 1 a) "/"
       then String.append a b
       else String.append a (String.append "/" b).

(** [s[1:]] *)
Definition drop_first (s : string) : string :=
  match s with
  | EmptyString => EmptyString
  | String _ s' => s'
  end.

Fixpoint disk_set (d : list (string * list byte)) (p : string) (c : list byte)
  : list (string * list byte) :=
  match d with
  | [] => [(p, c)]
  | (p', c') :: d' =>
      if String.eqb p p' then (p, c) :: d' else (p', c') :: disk_set d' p c
  end.

Fixpoint disk_get (d : list (string * list byte)) (p : string)
  : option (list byte) :=
  match d with
  | [] => None
  | (p', c') :: d' => if String.eqb p p' then Some c' else disk_get d' p
  end.

(** [open(path, 'wb')]: the file exists and is empty from here on. The
    directories [os.makedirs] creates are not modelled, and the calls
    to the local file system are taken to succeed. *)
Definition open_wb (path : string) : M unit :=
  fun w => (Done tt, mkWorld (rx w) (trace w ++ [Create path]) (out w)
                             (disk_set (disk w) path [])).

(** [f.write(data)] on the file opened at [path]. *)
Definition file_write (path : string) (data : list byte) : M unit :=
  fun w =>
    let old := match disk_get (disk w) path with Some c => c | None => [] end in
    (Done tt, mkWorld (rx w) (trace w ++ [Put path data]) (out w)
                      (disk_set (disk w) path (old ++ data))).

Definition pc_path_of (cfg : config) (dev_path : string) : string :=
  os_path_join (FS_PATH cfg) (drop_first dev_path).

(** Lines 615-645: what is left of a turn of the [for dev_path in
    fs_listing] loop once the size has been read. Each [continue] ends the
    turn. *)
Definition dump_answer (cfg : config) (fs_listing : dict) (dev_path : string)
  (sz : Z * list byte) : M unit :=
  let pc_path := pc_path_of cfg dev_path in
  let size := fst sz in
  let size_bytes := snd sz in
  if size =? 0xFFFFFFFF then
    print (ErrNotExist dev_path) ;;; wait_ready
  else if (size =? 0xFFFFFFFE) || (size =? 0xFFFFFFFD) then
    print (ErrCannotOpen dev_path) ;;; wait_ready
  else
    listed <- dict_lookup fs_listing dev_path ;;
    when (negb (size =? listed)) (print (WrnSizeChanged listed size)) ;;;
    contents <- device_read size ;;
    last <- device_read 1 ;;
    b <- index0 last ;;
    let checksum := byte_val b in
    when (VERBOSE cfg) (print (DbgRetrieved (length contents) size checksum)) ;;;
    if negb (Z.of_nat (length contents) =? size) then
      print (ErrIncompleteData (length contents) size) ;;; wait_ready
    else if checksum_mismatch [size_bytes; contents] checksum then
      print ErrChecksumFailed ;;; wait_ready
    else
      file_write pc_path contents ;;; wait_ready.

(** One turn of the loop, lines 609-645. *)
Definition dump_file (cfg : config) (fs_listing : dict) (dev_path : string)
  : M unit :=
  let pc_path := pc_path_of cfg dev_path in
  print (InfoDumpFile dev_path pc_path) ;;;
  open_wb pc_path ;;;
  cmd <- encode_ascii (String.append "R:" (String.append dev_path LF)) ;;
  device_write cmd ;;;
  sz <- read_32le ;;
  dump_answer cfg fs_listing dev_path sz.

(** [cmd] is the command line 613 writes for [dev_path]. *)
Definition read_command (dev_path : string) (cmd : list byte) : Prop :=
  list_byte_of_string (String.append "R:" (String.append dev_path LF)) = cmd
  /\ forallb is_ascii cmd = true.

Fixpoint dump_loop (cfg : config) (fs_listing : dict) (keys : list string)
  : M unit :=
  match keys with
  | [] => ret tt
  | dev_path :: keys' =>
      dump_file cfg fs_listing dev_path ;;; dump_loop cfg fs_listing keys'
  end.

(** Lines 607-645, after [prepare_fs()]. *)
Definition dump_files (cfg : config) (fs_listing : dict) : M unit :=
  print InfoDumping ;;;
  dump_loop cfg fs_listing (map fst fs_listing).

(** ** The upload (pc_companion.py:647-764) *)

(** The polling loops of lines 667 and 685:
    [while timer() - t_start < window: result = device.read(); if
    len(result) != 0: break]. [n] reads fit in the window; [result] is the
    value the variable holds when the loop is entered. *)
Fixpoint poll (n : nat) (result : list byte) : M (list byte) :=
  match n with
  | O => ret result
  | S n' =>
      r <- device_read 1 ;;
      if negb (length r =? 0)%nat then ret r else poll n' r
  end.

(** Lines 649-699: wipe or reformat; the value is [success]. *)
Definition reformat (cfg : config) : M bool :=
  if NO_REFORMAT cfg then
    print InfoRemovingAll ;;;
    device_write [x58; x3a; x2f; x0a] ;;;            (* b'X:/\n' *)
    r <- device_read 1 ;;
    result <- index0 r ;;
    if Byte.eqb result x58 then
      print ErrDeleteFailed ;;; ret false
    else if negb (Byte.eqb result x40) then
      print (ErrUnexpectedResult result) ;;; ret false
    else ret true
  else
    print InfoConfirmReformat ;;;
    device_write [x5a; x0a] ;;;                      (* b'Z\n' *)
    result <- poll (req_polls cfg) [] ;;
    if (length result =? 0)%nat then
      print ErrDecisionTimeout ;;; exit 1
    else
      b <- index0 result ;;
      if Byte.eqb b x58 then
        print InfoDeclined ;;; ret false
      else if negb (Byte.eqb b x2e) then
        print (ErrUnexpectedDecision b) ;;; exit 1
      else
        print InfoReformatting ;;;
        result <- poll (fmt_polls cfg) result ;;
        if (length result =? 0)%nat then
          print ErrReformatTimeout ;;; exit 1
        else
          b <- index0 result ;;
          if Byte.eqb b x58 then
            print ErrReformatFailed ;;; exit 1
          else if negb (Byte.eqb b x40) then
            print (ErrUnexpectedReformat b) ;;; exit 1
          else ret true.

(** The inner [while True] of line 734: one block, sent until the device
    stops answering 0x21. Every turn that goes on has taken a byte off the
    wire. *)
Fixpoint send_block_loop (fuel : nat) (cfg : config) (dev_path : string)
  (block : list byte) : M unit :=
  match fuel with
  | O => out_of_fuel
  | S fuel' =>
      device_write [x42] ;;;
      let block_sz := [byte_of_Z (Z.of_nat (length block) - 1)] in
      device_write block_sz ;;;
      device_write block ;;;
      let checksum := calculate_checksum [[x42]; block_sz; block] in
      device_write [byte_of_Z checksum] ;;;
      result <- device_read 1 ;;
      if (length result =? 0)%nat then
        print ErrWriteTimeout ;;; exit 1
      else
        result <- index0 result ;;
        off <- read_32le ;;
        let offset := fst off in
        if Byte.eqb result x21 then
          print ErrChecksumResend ;;;
          send_block_loop fuel' cfg dev_path block
        else if Byte.eqb result x58 then
          print (ErrWriteStuck dev_path offset) ;;; exit 1
        else if negb (Byte.eqb result x40) then
          print (ErrUnexpectedBlock result) ;;; exit 1
        else
          when (VERBOSE cfg) (print (DbgWritten (length block) dev_path offset))
  end.

Definition send_block (cfg : config) (dev_path : string) (block : list byte)
  : M unit :=
  fun w => send_block_loop (S (length (rx w))) cfg dev_path block w.

(** The outer [while True] of line 728 over what is left of the file:
    [f.read(256)] until it returns nothing. *)
Fixpoint send_blocks_loop (fuel : nat) (cfg : config) (dev_path : string)
  (rest : list byte) : M unit :=
  match fuel with
  | O => out_of_fuel
  | S fuel' =>
      let block := firstn 256 rest in
      if (length block =? 0)%nat then
        when (VERBOSE cfg) (print DbgComplete)
      else
        send_block cfg dev_path block ;;;
        send_blocks_loop fuel' cfg dev_path (skipn 256 rest)
  end.

Definition send_blocks (cfg : config) (dev_path : string) (content : list byte)
  : M unit :=
  send_blocks_loop (S (length content)) cfg dev_path content.

(** [s.removeprefix(prefix)] *)
Fixpoint strip_prefix (prefix s : string) : option string :=
  match prefix with
  | EmptyString => Some s
  | String p prefix' =>
      match s with
      | EmptyString => None
      | String c s' => if Ascii.eqb p c then strip_prefix prefix' s' else None
      end
  end.

Definition removeprefix (s prefix : string) : string :=
  match strip_prefix prefix s with
  | Some s' => s'
  | None => s
  end.

(** [s.replace('\\', '/')] *)
Fixpoint unify_separators (s : string) : string :=
  match s with
  | EmptyString => EmptyString
  | String c s' =>
      String (if Ascii.eqb c "\"%char then "/"%char else c) (unify_separators s')
  end.

Definition dev_path_of (cfg : config) (pc_path : string) : string :=
  unify_separators (removeprefix pc_path (FS_PATH cfg)).

(** One file of the walk, lines 711-764: its path on the PC and what
    [open(pc_path, 'rb')] reads from it. *)
Definition upload_file (cfg : config) (file : string * list byte) : M unit :=
  let pc_path := fst file in
  let dev_path := dev_path_of cfg pc_path in
  print (InfoUploadFile pc_path dev_path) ;;;
  cmd <- encode_ascii (String.append "W:" (String.append dev_path LF)) ;;
  device_write cmd ;;;
  result <- device_read 5 ;;
  if (length result =? 0)%nat then
    print (ErrOpenTimeout dev_path) ;;; exit 1
  else
    b <- index0 result ;;
    if Byte.eqb b x58 then
      print (ErrCannotCreate dev_path)
    else if negb (Byte.eqb b x40) then
      print (ErrUnexpectedOpen b) ;;; exit 1
    else
      send_blocks cfg dev_path (snd file) ;;;
      when (VERBOSE cfg) (print DbgTerminating) ;;;
      device_write [x46] ;;;
      wait_ready.

(** The two [for] loops of lines 709-710 over the files [os.walk] finds,
    in the order it finds them. *)
Fixpoint upload_files (cfg : config) (files : list (string * list byte))
  : M unit :=
  match files with
  | [] => ret tt
  | file :: files' => upload_file cfg file ;;; upload_files cfg files'
  end.

(** The [if ACT_UPLOAD:] block. *)
Definition upload (cfg : config) (files : list (string * list byte)) : M unit :=
  success <- reformat cfg ;;
  if negb success then
    print InfoNotReformatted ;;; exit 1
  else
    wait_ready ;;;
    print InfoUploading ;;;
    upload_files cfg files.

(** ** Lines of output used in the statements *)

(** Line 624. *)
Definition size_warning (listed size : Z) : list msg :=
  if size =? listed then [] else [WrnSizeChanged listed size].

(** Line 631. *)
Definition retrieved_debug (cfg : config) (got : nat) (size checksum : Z)
  : list msg :=
  if VERBOSE cfg then [DbgRetrieved got size checksum] else [].

(** ** The block exchange on the wire, used in the statements *)

(** The four bytes that follow a status byte. *)
Definition word : Type := (byte * byte * byte * byte)%type.

Definition word_bytes (o : word) : list byte :=
  let '(a, b, c, d) := o in [a; b; c; d].

(** What the device sends after a block: a status byte and an offset. *)
Definition ack (status : byte) (o : word) : list item :=
  Data status :: map Data (word_bytes o).

(** The two reads of lines 742 and 747 that take it. *)
Definition ack_reads (status : byte) (o : word) : list event :=
  [Rx 1 [status]; Rx 4 (word_bytes o)].

(** The four writes of lines 735-740 for one block. *)
Definition frame (block : list byte) : list event :=
  let block_sz := [byte_of_Z (Z.of_nat (length block) - 1)] in
  [Tx [x42]; Tx block_sz; Tx block;
   Tx [byte_of_Z (calculate_checksum [[x42]; block_sz; block])]].

(** A block sent once and accepted. *)
Definition accepted (p : list byte * word) : list event :=
  frame (fst p) ++ ack_reads x40 (snd p).


(** Line 759. *)
Definition written_debug (cfg : config) (dev_path : string)
  (p : list byte * word) : list msg :=
  if VERBOSE cfg
  then [DbgWritten (length (fst p)) dev_path (unpack_le (word_bytes (snd p)))]
  else [].

(** The first [n] results of [f.read(256)] on a file that holds [content]. *)
Fixpoint chunks (n : nat) (content : list byte) : list (list byte) :=
  match n with
  | O => []
  | S n' => firstn 256 content :: chunks n' (skipn 256 content)
  end.

(** [cmd] is the command line 716 writes for [dev_path]. *)
Definition write_command (dev_path : string) (cmd : list byte) : Prop :=
  list_byte_of_string (String.append "W:" (String.append dev_path LF)) = cmd
  /\ forallb is_ascii cmd = true.

(** ** The reformat decision on the wire, used in the statements *)

(** The device answers [Z] with 0x58 before the window of line 667 closes:
    fewer than [req_polls] reads time out, then the byte arrives. *)
Definition declined (cfg : config) (s : list item) : Prop :=
  exists k rest, (k < req_polls cfg)%nat /\ s = repeat Gap k ++ Data x58 :: rest.

(** Nothing arrives within the window: all the reads that fit in it time
    out, the device being silent for that long or for ever. *)
Definition timed_out (cfg : config) (s : list item) : Prop :=
  exists k rest, s = repeat Gap k ++ rest /\ (k = req_polls cfg \/ rest = []).

(** A [str] that [encode('ascii')] accepts. *)
Definition ascii_str (s : string) : Prop :=
  forallb is_ascii (list_byte_of_string s) = true.

(** ** A whole file on the wire, used in the statements *)

(** What an accepting device sends for one file: the answer to the open
    command (0x40 and four more bytes), an acknowledgment per block, and the
    ready prompt after the end-of-file byte. *)
Definition file_wire (a : word * list word) : list item :=
  ack x40 (fst a) ++ flat_map (ack x40) (snd a) ++ [Data x3e].

(** The bytes of line 716 for the file at [pc_path]. *)
Definition write_command_of (cfg : config) (pc_path : string) : list byte :=
  list_byte_of_string
    (String.append "W:" (String.append (dev_path_of cfg pc_path) LF)).

(** The calls of lines 716-764 for a file all of whose blocks are accepted
    at their first sending. *)
Definition file_trace (cfg : config)
  (p : (string * list byte) * (word * list word)) : list event :=
  let '((pc_path, content), (reserved, offs)) := p in
  [Tx (write_command_of cfg pc_path); Rx 5 (x40 :: word_bytes reserved)]
  ++ flat_map accepted (combine (chunks (length offs) content) offs)
  ++ [Tx [x46]; Rx 1 [x3e]].

(** The device acknowledges as many blocks as the file has. *)
Definition acks_fit (file : string * list byte) (a : word * list word) : Prop :=
  length (snd a) = ((length (snd file) + 255) / 256)%nat.

(** ** The second phase of the reformat on the wire, used in the statements *)

(** After the confirmation 0x2E the device reports a result other than
    0x40 within the window of line 685, or nothing within the window. *)
Definition reformat_fails (cfg : config) (s : list item) : Prop :=
  (exists k st rest,
     (k < fmt_polls cfg)%nat /\ st <> x40
     /\ s = repeat Gap k ++ Data st :: rest)
  \/ (exists rest, s = repeat Gap (fmt_polls cfg) ++ rest).

(** ** What goes out on the wire *)


(** ** A listing on the wire, used in the statements *)

(** An entry as the device sends it: four size bytes and the bytes of the
    path, which a NUL follows. *)
Definition entry : Type := (word * list byte)%type.

Definition entry_size (e : entry) : Z := unpack_le (word_bytes (fst e)).

Definition entry_path (e : entry) : string := string_of_list_byte (snd e).

Definition entry_wire (e : entry) : list item :=
  map Data (word_bytes (fst e) ++ snd e ++ [x00]).

(** The entry that ends the listing. *)
Definition terminator : list item := map Data [xff; xff; xff; xff; x00].

(** A path that [decode('ascii')] accepts and that holds no NUL, in an
    entry that is not the terminator. *)
Definition entry_ok (e : entry) : Prop :=
  forallb is_ascii (snd e) = true
  /\ ~ In x00 (snd e)
  /\ (entry_size e <> 0xFFFFFFFF \/ snd e <> []).

(** Line 586 for an entry. *)
Definition record (d : dict) (e : entry) : dict :=
  dict_set d (entry_path e) (entry_size e).

(** The size of the last entry that has the path [k], if there is one. *)
Definition last_size (entries : list entry) (k : string) : option Z :=
  option_map entry_size
    (find (fun e => String.eqb k (entry_path e)) (rev entries)).

(** ** Downloads on the wire, used in the statements *)





(** * gtfs.py: merging stopping patterns *)

Module Merge.

(** A stopping pattern is a list of stop ids ([str]). *)
Definition pattern : Type := list string.

(** [x in l] *)
Definition mem (x : string) (l : pattern) : bool := existsb (String.eqb x) l.

(** [l.index(x)] for an [x] that is in [l]: the position of its first
    occurrence. (For an [x] that is not in [l], where Python raises, the
    value is [length l]; the code only asks for elements of both lists.) *)
Fixpoint index (x : string) (l : pattern) : nat :=
  match l with
  | [] => O
  | y :: l' => if String.eqb x y then O else S (index x l')
  end.

(** [min(l)] for a list that is not empty. *)
Definition list_min (l : list nat) : nat :=
  match l with
  | [] => O
  | n :: l' => fold_left Nat.min l' n
  end.

(** [l[lo:hi]] *)
Definition slice (l : pattern) (lo hi : nat) : pattern :=
  skipn lo (firstn hi l).

(** What [merge_two_patterns] does: return a list, return [None], or raise
    [ValueError]. *)
Inductive result : Type :=
| Merged (p : pattern)
| NotMerged
| RaisedValueError.

(** The [while] loop of lines 217-229 over the two overlaps. [a] and [b]
    are what is left of [a_overlap] from index [i] and of [b_overlap] from
    index [j]; the value is the [overlap] list the loop builds, or [None]
    where the loop returns [None]. *)
Fixpoint merge_overlap (a : pattern) : pattern -> option pattern :=
  fix over_b (b : pattern) : option pattern :=
    match a, b with
    | [], _ => Some []
    | _, [] => Some []
    | a_i :: a', b_j :: b' =>
        if String.eqb a_i b_j then
          option_map (cons a_i) (merge_overlap a' b')
        else if match a' with
                | next :: _ => String.eqb next b_j
                | [] => false
                end then
          option_map (cons a_i) (merge_overlap a' b)
        else if match b' with
                | next :: _ => String.eqb next a_i
                | [] => false
                end then
          option_map (cons b_j) (over_b b')
        else None
    end.

(** [merge_two_patterns] (gtfs.py:188-235). The set [common_elem] is held
    as the list of the elements of [a] that are in [b]: the code uses its
    emptiness, and the least and greatest index of its elements in [a] and
    in [b], none of which depends on order or repetition. *)
Definition merge_two_patterns (a b : pattern) : result :=
  let common_elem := filter (fun x => mem x b) a in
  if (length common_elem =? 0)%nat then NotMerged
  else
    let common_idx_a := map (fun elem => index elem a) common_elem in
    let common_idx_b := map (fun elem => index elem b) common_elem in
    let common_idx_a_min := list_min common_idx_a in
    let common_idx_a_max := list_max common_idx_a in
    let common_idx_b_min := list_min common_idx_b in
    let common_idx_b_max := list_max common_idx_b in
    if negb (common_idx_a_min =? 0)%nat && negb (common_idx_b_min =? 0)%nat
    then RaisedValueError
    else
      let '(a_min, a_max, b_min, b_max, a, b) :=
        if negb (common_idx_b_min =? 0)%nat
        then (common_idx_b_min, common_idx_b_max,
              common_idx_a_min, common_idx_a_max, b, a)
        else (common_idx_a_min, common_idx_a_max,
              common_idx_b_min, common_idx_b_max, a, b) in
      let a_overlap := slice a a_min (a_max + 1) in
      let b_overlap := slice b b_min (b_max + 1) in
      match merge_overlap a_overlap b_overlap with
      | None => NotMerged
      | Some overlap =>
          Merged (firstn a_min a ++ overlap
                  ++ (if negb (b_max =? length b - 1)%nat
                      then skipn (b_max + 1) b
                      else skipn (a_max + 1) a))
      end.

(** The [for] loop of lines 241-248: the first pattern of the queue that
    merges with [result], the merged pattern and the queue without it. A
    [ValueError] counts as no merge. *)
Fixpoint try_merge (result : pattern) (queue : list pattern)
  : option (pattern * list pattern) :=
  match queue with
  | [] => None
  | p :: queue' =>
      match merge_two_patterns result p with
      | Merged result_new => Some (result_new, queue')
      | NotMerged | RaisedValueError =>
          match try_merge result queue' with
          | Some (result_new, rest) => Some (result_new, p :: rest)
          | None => None
          end
      end
  end.

(** The [while] loop of lines 239-252; every turn that goes on has taken a
    pattern off the queue, so [length queue] turns are enough. *)
Fixpoint merge_loop (fuel : nat) (result : pattern) (queue : list pattern)
  : pattern :=
  match fuel with
  | O => result
  | S fuel' =>
      if (length queue =? 0)%nat then result
      else
        match try_merge result queue with
        | Some (result_new, queue') => merge_loop fuel' result_new queue'
        | None => result
        end
  end.

(** [merge_patterns] (gtfs.py:187-253) on the patterns of the trips, in the
    order of [trip_ids]; [None] stands for the [IndexError] of popping an
    empty list. *)
Definition merge_patterns (patterns : list pattern) : option pattern :=
  match rev patterns with
  | [] => None
  | result :: _ =>
      let pattern_queue := removelast patterns in
      Some (merge_loop (length pattern_queue) result pattern_queue)
  end.

End Merge.

(** * gtfs.py: the routes of a feed *)

Module Routes.

(** A row of [routes.txt] as [csv.DictReader] yields it, for a file that
    has the three columns the code reads. *)
Record row : Type := mkRow {
  route_short_name : string;
  route_long_name : string;
  route_id : string
}.

(** [dict[str, tuple[str, list[str]]]], in insertion order. *)
Definition routes_dict : Type := list (string * (string * list string)).

Fixpoint get (routes : routes_dict) (k : string)
  : option (string * list string) :=
  match routes with
  | [] => None
  | (k', v) :: routes' => if String.eqb k k' then Some v else get routes' k
  end.

Fixpoint set (routes : routes_dict) (k : string) (v : string * list string)
  : routes_dict :=
  match routes with
  | [] => [(k, v)]
  | (k', v') :: routes' =>
      if String.eqb k k' then (k, v) :: routes'
      else (k', v') :: set routes' k v
  end.

(** The body of the [for row in reader] loop, gtfs.py:67-73. The list of
    ids sits inside the tuple stored in the dict; appending to it changes
    the entry. *)
Definition add_row (routes : routes_dict) (r : row) : routes_dict :=
  let route_num := route_short_name r in
  let routes :=
    match get routes route_num with
    | None => set routes route_num (route_long_name r, [])
    | Some _ => routes
    end in
  match get routes route_num with
  | Some (route_name, ids) => set routes route_num (route_name, ids ++ [route_id r])
  | None => routes
  end.

(** [GTFS.get_routes] (gtfs.py:63-74) on the rows of the file. *)
Definition get_routes (rows : list row) : routes_dict :=
  fold_left add_row rows [].

(** The rows of a route number, in the order of the file. *)
Definition rows_of (route_num : string) (rows : list row) : list row :=
  filter (fun r => String.eqb route_num (route_short_name r)) rows.

End Routes.

(** * pc_companion.py: the helpers of the generator *)

Module Generate.

(** [c.isspace()] for a character below 256. *)
Definition isspace (c : ascii) : bool :=
  let n := nat_of_ascii c in
  ((9 <=? n) && (n <=? 13) || (28 <=? n) && (n <=? 32)
   || (n =? 133) || (n =? 160))%nat.

(** [str.split()] with no argument: the runs of characters that are not
    white space. [word] is the run being read. *)
Fixpoint split_from (word : string) (s : string) : list string :=
  match s with
  | EmptyString =>
      match word with
      | EmptyString => []
      | _ => [word]
      end
  | String c s' =>
      if isspace c then
        match word with
        | EmptyString => split_from EmptyString s'
        | _ => word :: split_from EmptyString s'
        end
      else split_from (String.append word (String c EmptyString)) s'
  end.

Definition split (s : string) : list string := split_from EmptyString s.

(** [c.lower()] for a character below 256. *)
Definition lower_char (c : ascii) : ascii :=
  let n := nat_of_ascii c in
  if ((65 <=? n) && (n <=? 90) || (192 <=? n) && (n <=? 214)
      || (216 <=? n) && (n <=? 222))%nat
  then ascii_of_nat (n + 32)
  else c.

Fixpoint lower (s : string) : string :=
  match s with
  | EmptyString => EmptyString
  | String c s' => String (lower_char c) (lower s')
  end.

(** [l.index(x)]; [None] stands for the [ValueError]. *)
Fixpoint index_of (x : string) (l : list string) : option nat :=
  match l with
  | [] => None
  | y :: l' =>
      if String.eqb x y then Some O else option_map S (index_of x l')
  end.

(** [fix_dir] (pc_companion.py:501-507). *)
Definition fix_dir (dir : string) : string :=
  let dir_split := split dir in
  match index_of "to" (map lower dir_split) with
  | Some to_idx => String.concat " " (skipn (to_idx + 1) dir_split)
  | None => dir
  end.

(** A word: not empty and without white space. *)
Fixpoint no_space (s : string) : bool :=
  match s with
  | EmptyString => true
  | String c s' => negb (isspace c) && no_space s'
  end.

Definition is_word (s : string) : Prop :=
  s <> EmptyString /\ no_space s = true.

(** The stop index of line 487:
    [{id: idx for idx, id in enumerate(stops_filtered)}]. *)
Fixpoint enumerate_from (idx : Z) (ids : list string) (d : dict) : dict :=
  match ids with
  | [] => d
  | id :: ids' => enumerate_from (idx + 1) ids' (dict_set d id idx)
  end.

Definition stops_idx_of (stops_filtered : list string) : dict :=
  enumerate_from 0 stops_filtered [].

(** [struct.pack('<H', n)]; [None] stands for [struct.error]. *)
Definition pack_H (n : Z) : option (list byte) :=
  if (0 <=? n) && (n <=? 65535) then Some [byte_of_Z n; byte_of_Z (n / 256)]
  else None.

Inductive packed :=
| Packed (seq_dat : list byte)
| RaisedKeyError (stop : string)
| RaisedStructError (n : Z).

(** The loop of [prep_write_seq] (pc_companion.py:517-518). *)
Fixpoint seq_loop (stops_idx : dict) (stops : list string)
    (seq_dat : list byte) : packed :=
  match stops with
  | [] => Packed seq_dat
  | stop :: stops' =>
      match dict_get stops_idx stop with
      | None => RaisedKeyError stop
      | Some n =>
          match pack_H n with
          | None => RaisedStructError n
          | Some bs => seq_loop stops_idx stops' (seq_dat ++ bs)
          end
      end
  end.

Definition seq_dat (stops_idx : dict) (stops : list string) : packed :=
  seq_loop stops_idx stops [].

(** What the reader of a seq file sees: its little-endian 16-bit values. *)
Fixpoint unpack_H (data : list byte) : list Z :=
  match data with
  | lo :: hi :: rest => unpack_le [lo; hi] :: unpack_H rest
  | _ => []
  end.

End Generate.

(** * ptvgtfs.py: the datasets of the transport modes *)

Module Ptv.

(** [_modes] (ptvgtfs.py:8-19). *)
Definition _modes : dict :=
  [("RegionalTrain"%string, 1); ("MetroTrain"%string, 2);
   ("MetroTram"%string, 3); ("MetroBus"%string, 4);
   ("RegionalCoach"%string, 5); ("RegionalBus"%string, 6);
   ("TeleBus"%string, 7); ("NightBus"%string, 8);
   ("Interstate"%string, 10); ("SkyBus"%string, 11)].

(** The downloaded archive: the content of the member
    [f'{id}/google_transit.zip'] for the ids it has. [ZipFile.read] raises
    [KeyError] for a member that is missing. The download itself is taken to
    succeed. *)
Definition archive : Type := Z -> option (list byte).

Inductive error :=
| ValueError (mode : string)
| KeyError (id : Z).

(** The [modes] argument: a str, a list of names, or (what the test
    [modes is str] looks for) the class [str] itself. *)
Inductive modes_arg :=
| Str (s : string)
| Names (l : list string)
| TheClassStr.

(** [modes is str]: identity with the class object. *)
Definition is_str (modes : modes_arg) : bool :=
  match modes with
  | TheClassStr => true
  | _ => false
  end.

(** [extract_single] of [download_bufs] (ptvgtfs.py:55-63). *)
Definition extract_single (datasets_zip : archive) (mode : string) :
    error + list byte :=
  match dict_get _modes mode with
  | None => inl (ValueError mode)
  | Some id =>
      match datasets_zip id with
      | None => inl (KeyError id)
      | Some result => inr result
      end
  end.

Definition bufs : Type := list (string * list byte).

Fixpoint bufs_set (d : bufs) (k : string) (v : list byte) : bufs :=
  match d with
  | [] => [(k, v)]
  | (k', v') :: d' =>
      if String.eqb k k' then (k, v) :: d' else (k', v') :: bufs_set d' k v
  end.

Fixpoint bufs_get (d : bufs) (k : string) : option (list byte) :=
  match d with
  | [] => None
  | (k', v') :: d' => if String.eqb k k' then Some v' else bufs_get d' k
  end.

(** [{mode: extract_single(mode) for mode in modes}] *)
Fixpoint extract_all (datasets_zip : archive) (modes : list string)
    (d : bufs) : error + bufs :=
  match modes with
  | [] => inr d
  | mode :: modes' =>
      match extract_single datasets_zip mode with
      | inl e => inl e
      | inr result => extract_all datasets_zip modes' (bufs_set d mode result)
      end
  end.

(** Iterating over a str gives its characters as strs of length one. *)
Fixpoint characters (s : string) : list string :=
  match s with
  | EmptyString => []
  | String c s' => String c EmptyString :: characters s'
  end.

Inductive downloaded :=
| Single (buf : list byte)
| Many (d : bufs).

(** [download_bufs] (ptvgtfs.py:52-68). *)
Definition download_bufs (datasets_zip : archive) (modes : modes_arg) :
    error + downloaded :=
  if is_str modes then
    (* extract_single(str): the class is no key of _modes *)
    inl (ValueError "<class 'str'>")
  else
    match
      extract_all datasets_zip
        match modes with
        | Str s => characters s
        | Names l => l
        | TheClassStr => []
        end []
    with
    | inl e => inl e
    | inr d => inr (Many d)
    end.

(** The normalisation of [download_datasets] (ptvgtfs.py:73):
    [if type(modes) == str: modes = [modes]]. *)
Definition normalise (modes : modes_arg) : modes_arg :=
  match modes with
  | Str s => Names [s]
  | _ => modes
  end.

End Ptv.

(** * pc_companion.py: the route specifiers of the command line *)

Module Cli.

(** [PT_MODES] (pc_companion.py:56-65). *)
Definition PT_MODES : list (string * string) :=
  [("RegionalTrain"%string, "Regional train"%string);
   ("MetroTrain"%string, "Metropolitan train"%string);
   ("MetroTram"%string, "Metropolitan tram"%string);
   ("MetroBus"%string, "Metropolitan bus"%string);
   ("RegionalCoach"%string, "Regional coach"%string);
   ("RegionalBus"%string, "Regional bus"%string);
   ("Interstate"%string, "Interstate bus"%string);
   ("SkyBus"%string, "SkyBus"%string)].

(** [k in PT_MODES] *)
Definition has_key (k : string) (d : list (string * string)) : bool :=
  existsb (fun kv => String.eqb k (fst kv)) d.

(** [s.split(sep)] for a separator of one character. *)
Fixpoint split_on (sep : ascii) (s : string) : list string :=
  match s with
  | EmptyString => [EmptyString]
  | String c s' =>
      if Ascii.eqb c sep then EmptyString :: split_on sep s'
      else
        match split_on sep s' with
        | w :: ws => String c w :: ws
        | [] => [String c EmptyString]
        end
  end.

(** [ROUTES: dict[str, list[str]]] *)
Definition routes_table : Type := list (string * list string).

Fixpoint assign (d : routes_table) (k : string) (v : list string) :
    routes_table :=
  match d with
  | [] => [(k, v)]
  | (k', v') :: d' =>
      if String.eqb k k' then (k, v) :: d' else (k', v') :: assign d' k v
  end.

Inductive parsed :=
| Parsed (ROUTES : routes_table)
| Malformed (mode : string)        (* [ERR] Malformed route specifier, exit(1) *)
| NoSuchMode (name : string).      (* [ERR] ... does not exist!, exit(1) *)

(** The loop over [args.routes] (pc_companion.py:125-134). *)
Fixpoint parse_routes (specs : list string) (ROUTES : routes_table) : parsed :=
  match specs with
  | [] => Parsed ROUTES
  | mode :: specs' =>
      let mode_pair := split_on ":" mode in
      if negb (Nat.eqb (length mode_pair) 2) then Malformed mode
      else
        let name := nth 0 mode_pair EmptyString in
        if negb (has_key name PT_MODES) then NoSuchMode name
        else
          let routes := split_on "," (nth 1 mode_pair EmptyString) in
          if (0 <? length routes)%nat
          then parse_routes specs' (assign ROUTES name routes)
          else parse_routes specs' ROUTES
  end.

(** [c not in s] *)
Fixpoint lacks (c : ascii) (s : string) : bool :=
  match s with
  | EmptyString => true
  | String c' s' => negb (Ascii.eqb c' c) && lacks c s'
  end.

(** The specifier a user writes for a mode and its routes, as in
    [-r MetroBus:767,903,201]. *)
Definition specifier (entry : string * list string) : string :=
  String.append (fst entry)
    (String.append ":" (String.concat "," (snd entry))).

(** A route number that a specifier can carry: without colon and comma. *)
Definition plain (r : string) : Prop :=
  lacks ":" r = true /\ lacks "," r = true.

(** An entry of [ROUTES] that a specifier can express. *)
Definition well_formed (entry : string * list string) : Prop :=
  has_key (fst entry) PT_MODES = true /\ snd entry <> [] /\
  Forall plain (snd entry).

(** An entry of [ROUTES] the generator can work with. *)
Definition known (entry : string * list string) : Prop :=
  has_key (fst entry) PT_MODES = true /\
  (exists id, dict_get Ptv._modes (fst entry) = Some id) /\
  snd entry <> [].

End Cli.

(** * Properties *)

(** *** Arithmetic of the checksum *)

Lemma byte_val_range (b : byte) : 0 <= byte_val b < 256.
Proof.
  unfold byte_val. pose proof (Byte.to_N_bounded b). lia.
Qed.

Lemma byte_of_Z_val (z : Z) : byte_val (byte_of_Z z) = z mod 256.
Proof.
  unfold byte_of_Z, byte_val.
  assert (Hr : 0 <= z mod 256 < 256) by (apply Z.mod_pos_bound; lia).
  destruct (Byte.of_N (Z.to_N (z mod 256))) as [b|] eqn:E.
  - apply Byte.to_of_N in E. rewrite E. lia.
  - apply Byte.of_N_None_iff in E. lia.
Qed.

Lemma byte_of_Z_of_val (b : byte) : byte_of_Z (byte_val b) = b.
Proof.
  unfold byte_of_Z. pose proof (byte_val_range b) as Hr.
  rewrite Z.mod_small by lia. unfold byte_val.
  rewrite N2Z.id, Byte.of_to_N. reflexivity.
Qed.

Lemma land_0xFF (z : Z) : Z.land z 0xFF = z mod 256.
Proof.
  change 0xFF with (Z.ones 8). rewrite Z.land_ones by lia. reflexivity.
Qed.

Lemma fold_add_shift (f : byte -> Z) (l : list byte) (a : Z) :
  fold_left (fun acc b => acc + f b) l a
  = a + fold_left (fun acc b => acc + f b) l 0.
Proof.
  revert a. induction l as [|x l IH]; intros a; simpl.
  - lia.
  - rewrite IH. rewrite (IH (f x)). lia.
Qed.

Lemma sum_bytes_cons (b : byte) (l : list byte) :
  sum_bytes (b :: l) = byte_val b + sum_bytes l.
Proof.
  unfold sum_bytes. simpl. apply fold_add_shift.
Qed.

Lemma sum_bytes_app (l1 l2 : list byte) :
  sum_bytes (l1 ++ l2) = sum_bytes l1 + sum_bytes l2.
Proof.
  induction l1 as [|x l1 IH]; simpl.
  - reflexivity.
  - rewrite !sum_bytes_cons, IH. lia.
Qed.

Lemma sum_bytes_nonneg (l : list byte) : 0 <= sum_bytes l.
Proof.
  induction l as [|x l IH].
  - unfold sum_bytes; simpl; lia.
  - rewrite sum_bytes_cons. pose proof (byte_val_range x). lia.
Qed.

Lemma sum_ints_cons (x : Z) (xs : list Z) : sum_ints (x :: xs) = x + sum_ints xs.
Proof.
  unfold sum_ints. simpl.
  assert (H : forall l a, fold_left Z.add l a = a + fold_left Z.add l 0).
  { induction l as [|y l IH]; intros a; simpl; [lia|].
    rewrite IH, (IH y). lia. }
  apply H.
Qed.

Lemma sum_ranges_concat (args : list (list byte)) :
  sum_ints (map sum_bytes args) = sum_bytes (concat args).
Proof.
  induction args as [|r args IH]; simpl.
  - reflexivity.
  - rewrite sum_ints_cons, sum_bytes_app, IH. reflexivity.
Qed.

Lemma calculate_checksum_formula (args : list (list byte)) :
  calculate_checksum args = (0x100 - sum_bytes (concat args) mod 256) mod 256.
Proof.
  unfold calculate_checksum. rewrite !land_0xFF, sum_ranges_concat. reflexivity.
Qed.


Lemma checksum_cancels (args : list (list byte)) :
  (sum_bytes (concat args) + calculate_checksum args) mod 256 = 0.
Proof.
  rewrite calculate_checksum_formula.
  rewrite Zplus_mod_idemp_r.
  rewrite <- Zplus_mod_idemp_l.
  replace (sum_bytes (concat args) mod 256 + (256 - sum_bytes (concat args) mod 256))
    with (1 * 256) by lia.
  apply Z_mod_mult.
Qed.

(** C3. For every sequence of byte ranges [args] the checksum function
    returns [(0x100 - (sum mod 256)) mod 256] where [sum] is the sum of all
    the bytes of all ranges; it is the checksum of the concatenation of the
    ranges taken as one range; the sum of the bytes plus the checksum is 0
    modulo 256; and recomputing the checksum over the same ranges and
    comparing it with the first result succeeds. *)
Theorem checksum_sound (args : list (list byte)) :
  calculate_checksum args = (0x100 - (sum_bytes (concat args) mod 256)) mod 256
  /\ calculate_checksum args = calculate_checksum [concat args]
  /\ (sum_bytes (concat args) + calculate_checksum args) mod 256 = 0
  /\ checksum_mismatch args (calculate_checksum args) = false.
Proof.
  split; [apply calculate_checksum_formula|].
  split.
  { rewrite !calculate_checksum_formula. simpl. rewrite app_nil_r. reflexivity. }
  split; [apply checksum_cancels|].
  unfold checksum_mismatch. rewrite Z.eqb_refl. reflexivity.
Qed.


(** ** The serial port *)

Arguments calculate_checksum : simpl never.
Arguments byte_of_Z : simpl never.
Arguments unpack_le : simpl never.

Lemma take_rx_zero (s : list item) : take_rx 0 s = ([], s).
Proof. destruct s as [|[b|] s]; reflexivity. Qed.

Lemma take_rx_one_data (b : byte) (s : list item) :
  take_rx 1 (Data b :: s) = ([b], s).
Proof. simpl. rewrite take_rx_zero. reflexivity. Qed.

Lemma take_rx_data (bs : list byte) (s : list item) :
  take_rx (Z.of_nat (length bs)) (map Data bs ++ s) = (bs, s).
Proof.
  induction bs as [|b bs IH].
  - simpl. apply take_rx_zero.
  - cbn [length map app take_rx].
    destruct (Z.leb_spec (Z.of_nat (S (length bs))) 0); [lia|].
    replace (Z.of_nat (S (length bs)) - 1) with (Z.of_nat (length bs)) by lia.
    rewrite IH. reflexivity.
Qed.

(** A read never returns more than it was asked for, and never puts
    anything back on the wire. *)
Lemma take_rx_length (size : Z) (s : list item) :
  (length (fst (take_rx size s)) + length (snd (take_rx size s)) <= length s)%nat
  /\ Z.of_nat (length (fst (take_rx size s))) <= Z.max 0 size.
Proof.
  revert size. induction s as [|[b|] s IH]; intros size; simpl.
  - lia.
  - destruct (Z.leb_spec size 0); simpl; [lia|].
    specialize (IH (size - 1)). destruct (take_rx (size - 1) s) as [got rest].
    simpl in *. lia.
  - destruct (Z.leb_spec size 0); simpl; lia.
Qed.

Lemma take_until_length (e : byte) (s : list item) :
  (length (snd (take_until e s)) <= length s)%nat.
Proof.
  induction s as [|[b|] s IH]; simpl; try lia.
  destruct (Byte.eqb b e); simpl; [lia|].
  destruct (take_until e s) as [got rest]. simpl in *. lia.
Qed.

Lemma take_until_data (e : byte) (bs : list byte) (s : list item) :
  ~ In e bs ->
  take_until e (map Data (bs ++ [e]) ++ s) = (bs ++ [e], s).
Proof.
  induction bs as [|b bs IH]; intros Hn; simpl.
  - rewrite (Byte.byte_dec_lb (eq_refl e)). reflexivity.
  - destruct (Byte.eqb b e) eqn:E.
    + apply Byte.byte_dec_bl in E. subst. exfalso. apply Hn. left. reflexivity.
    + rewrite IH; [reflexivity|]. intros H. apply Hn. right. exact H.
Qed.

(** ** wait_ready *)

(** [wait_ready] on each head of the stream. *)
Lemma wait_ready_eq (w : world) :
  wait_ready w =
    match rx w with
    | Data b :: rest =>
        if Byte.eqb b x3e
        then (Done tt, mkWorld rest (trace w ++ [Rx 1 [b]]) (out w) (disk w))
        else (Exit 1, mkWorld rest (trace w ++ [Rx 1 [b]])
                              (out w ++ [ErrReadyInvalid b]) (disk w))
    | Gap :: rest =>
        (Exit 1, mkWorld rest (trace w ++ [Rx 1 []])
                         (out w ++ [ErrReadyTimeout]) (disk w))
    | [] =>
        (Exit 1, mkWorld [] (trace w ++ [Rx 1 []])
                         (out w ++ [ErrReadyTimeout]) (disk w))
    end.
Proof.
  destruct w as [s tr o d]. unfold wait_ready, bind, device_read. simpl rx.
  destruct s as [|[b|] s].
  - reflexivity.
  - rewrite take_rx_one_data. simpl.
    destruct (Byte.eqb b x3e); reflexivity.
  - reflexivity.
Qed.

(** C7. [wait_ready] makes one read call, for one byte. When the read
    returns nothing (a silence, or the end of the stream) it prints the
    time-out line and leaves with [exit(1)]; when it returns a byte other
    than 0x3E it prints the invalid-response line and leaves with [exit(1)];
    when it returns 0x3E it returns to its caller. At most the one byte read
    is taken off the wire. *)
Theorem wait_ready_contract (w : world) :
  wait_ready w =
    match rx w with
    | Data b :: rest =>
        if Byte.eqb b x3e
        then (Done tt, mkWorld rest (trace w ++ [Rx 1 [b]]) (out w) (disk w))
        else (Exit 1, mkWorld rest (trace w ++ [Rx 1 [b]])
                              (out w ++ [ErrReadyInvalid b]) (disk w))
    | Gap :: rest =>
        (Exit 1, mkWorld rest (trace w ++ [Rx 1 []])
                         (out w ++ [ErrReadyTimeout]) (disk w))
    | [] =>
        (Exit 1, mkWorld [] (trace w ++ [Rx 1 []])
                         (out w ++ [ErrReadyTimeout]) (disk w))
    end.
Proof. exact (wait_ready_eq w). Qed.

(** ** read_32le *)

Lemma read_32le_rx (w w' : world) (z : Z * list byte) :
  read_32le w = (Done z, w') -> (length (rx w') + 4 <= length (rx w))%nat.
Proof.
  destruct w as [s tr o d]. unfold read_32le, bind, device_read. simpl rx.
  pose proof (take_rx_length 4 s) as [Hl _].
  destruct (take_rx 4 s) as [got rest]. simpl in Hl |- *.
  destruct (Nat.eqb_spec (length got) 4); simpl; intros H; inversion H; subst.
  simpl. lia.
Qed.

Lemma read_32le_spec (w : world) :
  read_32le w =
    let got := fst (take_rx 4 (rx w)) in
    let rest := snd (take_rx 4 (rx w)) in
    if (length got =? 4)%nat
    then (Done (unpack_le got, got),
          mkWorld rest (trace w ++ [Rx 4 got]) (out w) (disk w))
    else (Exit 1,
          mkWorld rest (trace w ++ [Rx 4 got])
                  (out w ++ [ErrIncompleteRead (length got)]) (disk w)).
Proof.
  unfold read_32le, bind, device_read.
  destruct (take_rx 4 (rx w)) as [got rest]. cbn [fst snd]. cbv zeta.
  destruct (length got =? 4)%nat; reflexivity.
Qed.

Lemma read_32le_data (b0 b1 b2 b3 : byte) (s : list item) (tr : list event)
  (o : list msg) (d : list (string * list byte)) :
  read_32le (mkWorld (Data b0 :: Data b1 :: Data b2 :: Data b3 :: s) tr o d)
  = (Done (unpack_le [b0; b1; b2; b3], [b0; b1; b2; b3]),
     mkWorld s (tr ++ [Rx 4 [b0; b1; b2; b3]]) o d).
Proof.
  unfold read_32le, bind, device_read. simpl rx.
  change (Data b0 :: Data b1 :: Data b2 :: Data b3 :: s)
    with (map Data [b0; b1; b2; b3] ++ s).
  change 4 with (Z.of_nat (length [b0; b1; b2; b3])).
  rewrite take_rx_data. reflexivity.
Qed.

(** ** The listing loop *)

Lemma listing_loop_fuel (n m : nat) (fs_listing : dict) (w : world) :
  (length (rx w) < n)%nat -> (length (rx w) < m)%nat ->
  listing_loop n fs_listing w = listing_loop m fs_listing w.
Proof.
  revert m fs_listing w.
  induction n as [|n IH]; intros m fs_listing w Hn Hm; [lia|].
  destruct m as [|m]; [lia|].
  cbn [listing_loop]. unfold bind.
  destruct (read_32le w) as [[sz | c | e |] w1] eqn:E1; try reflexivity.
  apply read_32le_rx in E1.
  unfold device_read_until.
  pose proof (take_until_length x00 (rx w1)) as Hu.
  destruct (take_until x00 (rx w1)) as [raw rest]. simpl in Hu.
  unfold decode_ascii.
  destruct (forallb is_ascii (removelast raw)); [|reflexivity].
  unfold ret.
  destruct ((fst sz =? 4294967295)
            && (String.length (string_of_list_byte (removelast raw)) =? 0)%nat);
    [reflexivity|].
  apply IH; simpl; lia.
Qed.

(** The loop as the source has it: one turn, then the loop again. *)
Lemma read_listing_eq (fs_listing : dict) (w : world) :
  read_listing fs_listing w =
    (sz <- read_32le ;;
     raw <- device_read_until x00 ;;
     path <- decode_ascii (removelast raw) ;;
     if (fst sz =? 0xFFFFFFFF) && (String.length path =? 0)%nat then
       ret fs_listing
     else
       read_listing (dict_set fs_listing path (fst sz))) w.
Proof.
  unfold read_listing at 1. cbn [listing_loop]. unfold bind.
  destruct (read_32le w) as [[sz | c | e |] w1] eqn:E1; try reflexivity.
  apply read_32le_rx in E1.
  unfold device_read_until.
  pose proof (take_until_length x00 (rx w1)) as Hu.
  destruct (take_until x00 (rx w1)) as [raw rest]. simpl in Hu.
  unfold decode_ascii.
  destruct (forallb is_ascii (removelast raw)); [|reflexivity].
  unfold ret.
  destruct ((fst sz =? 4294967295)
            && (String.length (string_of_list_byte (removelast raw)) =? 0)%nat);
    [reflexivity|].
  unfold read_listing. apply listing_loop_fuel; simpl; lia.
Qed.

Lemma string_length_of_bytes (bs : list byte) :
  String.length (string_of_list_byte bs) = length bs.
Proof.
  unfold string_of_list_byte.
  induction bs as [|b bs IH]; simpl; [reflexivity|].
  rewrite IH. reflexivity.
Qed.

(** C2, as the code has it. An entry on the wire is four size bytes, the
    bytes of a path (ASCII, none of them NUL) and a NUL. When the size is
    0xFFFFFFFF and the path is empty the listing loop ends and returns the
    listing collected so far. Every other entry, among them an empty
    path with another size and the size 0xFFFFFFFF with a path that is not
    empty, is recorded in the listing ([fs_listing[path] = size]) and the
    loop goes on with the next entry; no exit is taken. *)
Theorem listing_entry (fs_listing : dict) (b0 b1 b2 b3 : byte)
  (name : list byte) (rest : list item) (w : world) :
  forallb is_ascii name = true ->
  ~ In x00 name ->
  rx w = map Data ([b0; b1; b2; b3] ++ name ++ [x00]) ++ rest ->
  let size := unpack_le [b0; b1; b2; b3] in
  let path := string_of_list_byte name in
  let w' := mkWorld rest
              (trace w ++ [Rx 4 [b0; b1; b2; b3]; RxUntil x00 (name ++ [x00])])
              (out w) (disk w) in
  read_listing fs_listing w =
    if (size =? 0xFFFFFFFF) && (length name =? 0)%nat
    then (Done fs_listing, w')
    else read_listing (dict_set fs_listing path size) w'.
Proof.
  intros Hascii Hnul Hrx size path w'.
  destruct w as [s tr o d]. simpl in Hrx. subst s.
  rewrite read_listing_eq.
  unfold bind at 1. rewrite read_32le_data.
  unfold bind at 1. unfold device_read_until. simpl rx.
  rewrite take_until_data by exact Hnul.
  unfold bind at 1. unfold decode_ascii.
  rewrite removelast_last, Hascii. unfold ret at 1.
  cbn [fst]. rewrite string_length_of_bytes.
  fold size. fold path.
  assert (Hw : mkWorld rest
                 ((tr ++ [Rx 4 [b0; b1; b2; b3]]) ++ [RxUntil x00 (name ++ [x00])])
                 o d = w').
  { unfold w'. simpl. rewrite <- app_assoc. reflexivity. }
  cbn [trace out disk]. rewrite Hw.
  destruct ((size =? 4294967295) && (length name =? 0)%nat); reflexivity.
Qed.

Lemma listing_entry_witness :
  read_listing [] (mkWorld (map Data [x05; x00; x00; x00; x00;
                                       xff; xff; xff; xff; x00]) [] [] [])
  = read_listing [(EmptyString, 5)]
      (mkWorld (map Data [xff; xff; xff; xff; x00])
               [Rx 4 [x05; x00; x00; x00]; RxUntil x00 [x00]] [] []).
Proof.
  apply (@listing_entry [] x05 x00 x00 x00 [] (map Data [xff; xff; xff; xff; x00])
           (mkWorld (map Data [x05; x00; x00; x00; x00;
                               xff; xff; xff; xff; x00]) [] [] [])).
  - reflexivity.
  - simpl. intros H. exact H.
  - reflexivity.
Defined.

(** C2, as the specification has it, fails: the device sends an entry with
    an empty path and size 5, then an entry with size 0xFFFFFFFF and path
    [a], then the terminator and the ready prompt. The listing operation
    returns both entries and takes no exit. *)
Lemma listing_records_other_shapes :
  let w := mkWorld (map Data [x05; x00; x00; x00; x00;
                              xff; xff; xff; xff; x61; x00;
                              xff; xff; xff; xff; x00;
                              x3e]) [] [] [] in
  fst (retrieve_fs_listing (mkConfig false "fs" false 3 3) w)
  = Done [(EmptyString, 5); ("a"%string, 0xFFFFFFFF)]
  /\ (forall c, fst (retrieve_fs_listing (mkConfig false "fs" false 3 3) w)
                <> Exit c).
Proof.
  split; [vm_compute; reflexivity|].
  intros c. vm_compute. discriminate.
Qed.

(** ** The dump loop *)





(** The turn up to the command: the file is created, then the command is
    written. *)
Lemma dump_file_command (cfg : config) (fs_listing : dict) (dev_path : string)
  (cmd : list byte) (w : world) :
  read_command dev_path cmd ->
  dump_file cfg fs_listing dev_path w =
    (sz <- read_32le ;; dump_answer cfg fs_listing dev_path sz)
      (mkWorld (rx w)
               (trace w ++ [Create (pc_path_of cfg dev_path); Tx cmd])
               (out w ++ [InfoDumpFile dev_path (pc_path_of cfg dev_path)])
               (disk_set (disk w) (pc_path_of cfg dev_path) [])).
Proof.
  intros [Hcmd Hascii]. destruct w as [s tr o d].
  unfold dump_file.
  unfold bind at 1. unfold print at 1. cbn [rx trace out disk].
  unfold bind at 1. unfold open_wb at 1. cbn [rx trace out disk].
  unfold bind at 1. unfold encode_ascii at 1. rewrite Hcmd, Hascii.
  unfold ret at 1.
  unfold bind at 1. unfold device_write at 1, log_event. cbn [rx trace out disk].
  rewrite <- app_assoc. reflexivity.
Qed.

(** The turn after a size that is none of the three reserved values, for
    any behaviour of the device. *)
Lemma dump_answer_content (cfg : config) (fs_listing : dict)
  (dev_path : string) (listed size : Z) (sb : list byte) (s : list item)
  (tr : list event) (o : list msg) (d : list (string * list byte)) :
  let pc_path := pc_path_of cfg dev_path in
  (size =? 0xFFFFFFFF) = false ->
  (size =? 0xFFFFFFFE) || (size =? 0xFFFFFFFD) = false ->
  dict_get fs_listing dev_path = Some listed ->
  dump_answer cfg fs_listing dev_path (size, sb) (mkWorld s tr o d) =
    let contents := fst (take_rx size s) in
    let last := fst (take_rx 1 (snd (take_rx size s))) in
    let s' := snd (take_rx 1 (snd (take_rx size s))) in
    let tr' := tr ++ [Rx size contents; Rx 1 last] in
    let o1 := o ++ size_warning listed size in
    match last with
    | [] => (Raise IndexError, mkWorld s' tr' o1 d)
    | b :: _ =>
        let o2 := o1 ++ retrieved_debug cfg (length contents) size (byte_val b) in
        if negb (Z.of_nat (length contents) =? size) then
          wait_ready (mkWorld s' tr'
                        (o2 ++ [ErrIncompleteData (length contents) size]) d)
        else if checksum_mismatch [sb; contents] (byte_val b) then
          wait_ready (mkWorld s' tr' (o2 ++ [ErrChecksumFailed]) d)
        else
          wait_ready
            (mkWorld s' (tr' ++ [Put pc_path contents]) o2
               (disk_set d pc_path
                  (match disk_get d pc_path with Some c => c | None => [] end
                   ++ contents)))
    end.
Proof.
  intros pc_path H1 H2 Hl.
  unfold dump_answer. cbn [fst snd]. rewrite H1, H2.
  unfold bind at 1. unfold dict_lookup. rewrite Hl. unfold ret at 1.
  assert (Hwarn : forall k : M unit,
    (when (negb (size =? listed)) (print (WrnSizeChanged listed size)) ;;; k)
      (mkWorld s tr o d)
    = k (mkWorld s tr (o ++ size_warning listed size) d)).
  { intros k. unfold bind, when, print, size_warning, ret.
    destruct (size =? listed); simpl; [rewrite app_nil_r|]; reflexivity. }
  rewrite Hwarn. clear Hwarn.
  unfold bind at 1. unfold device_read at 1. cbn [rx trace out disk].
  destruct (take_rx size s) as [contents s2]. cbn [fst snd].
  unfold bind at 1. unfold device_read at 1. cbn [rx trace out disk].
  destruct (take_rx 1 s2) as [last s3]. cbn [fst snd].
  rewrite <- app_assoc. cbn [app].
  destruct last as [|b last].
  - reflexivity.
  - unfold bind at 1. unfold index0, ret at 1.
    set (w2 := mkWorld s3 (tr ++ [Rx size contents; Rx 1 (b :: last)])
                 (o ++ size_warning listed size) d).
    assert (Hdbg : forall k : M unit,
      (when (VERBOSE cfg)
         (print (DbgRetrieved (length contents) size (byte_val b))) ;;; k) w2
      = k (mkWorld s3 (tr ++ [Rx size contents; Rx 1 (b :: last)])
             ((o ++ size_warning listed size)
              ++ retrieved_debug cfg (length contents) size (byte_val b)) d)).
    { intros k. unfold bind, when, print, retrieved_debug, ret, w2.
      destruct (VERBOSE cfg); simpl; [|rewrite app_nil_r]; reflexivity. }
    rewrite Hdbg. clear Hdbg.
    destruct (negb (Z.of_nat (length contents) =? size)); [reflexivity|].
    destruct (checksum_mismatch [sb; contents] (byte_val b)); reflexivity.
Qed.




(** A short content read is handled as an error of that file when one more
    byte arrives for the read of line 628 and the byte after it is the ready
    prompt: the file is left empty and the loop is at its next turn. *)
Lemma short_read_skipped (cfg : config) (fs_listing : dict)
  (dev_path : string) (cmd : list byte) (listed : Z) (b0 b1 b2 b3 b : byte)
  (content : list byte) (s rest : list item) (w : world) :
  let sb := [b0; b1; b2; b3] in
  let size := unpack_le sb in
  read_command dev_path cmd ->
  dict_get fs_listing dev_path = Some listed ->
  size < 0xFFFFFFFD ->
  rx w = map Data sb ++ s ->
  take_rx size s = (content, Data b :: Data x3e :: rest) ->
  Z.of_nat (length content) <> size ->
  exists tr o,
    dump_file cfg fs_listing dev_path w
    = (Done tt, mkWorld rest tr o (disk_set (disk w) (pc_path_of cfg dev_path) []))
    /\ In (ErrIncompleteData (length content) size) o.
Proof.
  intros sb size Hcmd Hl Hlt Hrx Htake Hshort. unfold sb in *. clear sb.
  destruct w as [s0 tr o d]. cbn [rx trace out disk] in *. subst s0.
  rewrite (dump_file_command cfg fs_listing (mkWorld _ tr o d) Hcmd).
  cbn [rx trace out disk].
  unfold bind at 1. cbn [map app]. rewrite read_32le_data. fold size.
  assert (E1 : (size =? 0xFFFFFFFF) = false) by (apply Z.eqb_neq; lia).
  assert (E2 : (size =? 0xFFFFFFFE) || (size =? 0xFFFFFFFD) = false).
  { apply orb_false_intro; apply Z.eqb_neq; lia. }
  rewrite (@dump_answer_content cfg fs_listing dev_path listed size
             _ _ _ _ _ E1 E2 Hl).
  rewrite Htake. cbn [fst snd]. rewrite take_rx_one_data.
  cbn [fst snd]. cbv zeta.
  apply Z.eqb_neq in Hshort. rewrite Hshort. cbn [negb].
  rewrite wait_ready_eq. cbn [rx trace out disk Byte.eqb].
  change (Byte.eqb x3e x3e) with true. cbv iota.
  eexists. eexists. split; [reflexivity|].
  apply in_or_app. right. left. reflexivity.
Qed.

(** C9, at an input where the code leaves the claim. The listing holds
    [/a] (2 bytes) and [/b] (1 byte). The device answers the read of [/a]
    with the size 2 and one content byte, stays silent for longer than two
    read timeouts, then sends the ready prompt and would answer the read of
    [/b]. The content read returns one byte, the read of line 628 returns
    nothing, and indexing it raises [IndexError]: the script dies with the
    ready prompt unread and [/b] never asked for. *)
Theorem short_read_then_silence_dies :
  dump_files (mkConfig false "fs" false 3 3)
    [("/a"%string, 2); ("/b"%string, 1)]
    (mkWorld (map Data [x02; x00; x00; x00; x41] ++ [Gap; Gap; Data x3e]
              ++ map Data [x01; x00; x00; x00; x42; xbd; x3e]) [] [] [])
  = (Raise IndexError,
     mkWorld (Data x3e :: map Data [x01; x00; x00; x00; x42; xbd; x3e])
       [Create "fs/a"; Tx [x52; x3a; x2f; x61; x0a];
        Rx 4 [x02; x00; x00; x00]; Rx 2 [x41]; Rx 1 []]
       [InfoDumping; InfoDumpFile "/a" "fs/a"]
       [("fs/a"%string, [])]).
Proof. vm_compute. reflexivity. Qed.





(** ** The upload: one block *)

Lemma send_block_loop_fuel (n m : nat) (cfg : config) (dev_path : string)
  (block : list byte) (w : world) :
  (length (rx w) < n)%nat -> (length (rx w) < m)%nat ->
  send_block_loop n cfg dev_path block w = send_block_loop m cfg dev_path block w.
Proof.
  revert m w.
  induction n as [|n IH]; intros m w Hn Hm; [lia|].
  destruct m as [|m]; [lia|].
  destruct w as [s tr o d]. cbn [rx] in Hn, Hm.
  cbn [send_block_loop].
  unfold bind at 1 2 3 4. unfold device_write, log_event. cbn [rx trace out disk].
  symmetry.
  unfold bind at 1 2 3 4. unfold device_write, log_event. cbn [rx trace out disk].
  symmetry.
  unfold bind at 1. unfold device_read at 1. cbn [rx trace out disk].
  symmetry.
  unfold bind at 1. unfold device_read at 1. cbn [rx trace out disk].
  symmetry.
  pose proof (take_rx_length 1 s) as [Hlen _].
  destruct (take_rx 1 s) as [result s1]. cbn [fst snd] in Hlen.
  destruct result as [|r result]; [reflexivity|].
  cbn [length Nat.eqb index0].
  unfold bind at 1. unfold ret at 1.
  symmetry. unfold bind at 1. unfold ret at 1. symmetry.
  unfold bind at 1. symmetry. unfold bind at 1. symmetry.
  match goal with |- context [read_32le ?W] =>
    destruct (read_32le W) as [[off | c | e |] w1] eqn:E1 end;
    try reflexivity.
  apply read_32le_rx in E1. cbn [rx] in E1.
  destruct (Byte.eqb r x21); [|reflexivity].
  unfold bind, print. cbn [rx trace out disk].
  destruct w1 as [s2 tr2 o2 d2]. cbn [rx trace out disk] in *.
  apply IH; cbn [rx]; cbn [length] in Hlen; lia.
Qed.

(** One turn of the inner loop when the device answers with a status byte
    and an offset. *)
Lemma send_block_ack (cfg : config) (dev_path : string) (block : list byte)
  (st : byte) (off : word) (s : list item) (tr : list event) (o : list msg)
  (d : list (string * list byte)) :
  send_block cfg dev_path block (mkWorld (ack st off ++ s) tr o d) =
    let after := fun msgs =>
      mkWorld s (tr ++ frame block ++ ack_reads st off) (o ++ msgs) d in
    if Byte.eqb st x21 then
      send_block cfg dev_path block (after [ErrChecksumResend])
    else if Byte.eqb st x58 then
      (Exit 1, after [ErrWriteStuck dev_path (unpack_le (word_bytes off))])
    else if negb (Byte.eqb st x40) then
      (Exit 1, after [ErrUnexpectedBlock st])
    else
      (Done tt, after (written_debug cfg dev_path (block, off))).
Proof.
  destruct off as [[[o0 o1] o2] o3].
  unfold send_block at 1. cbn [rx].
  set (fuel := length (ack st (o0, o1, o2, o3) ++ s)).
  cbn [send_block_loop].
  unfold bind at 1 2 3 4. unfold device_write, log_event. cbn [rx trace out disk].
  unfold bind at 1. unfold device_read at 1. cbn [rx trace out disk].
  unfold ack at 1. cbn [word_bytes map app]. rewrite take_rx_one_data.
  cbn [length Nat.eqb index0].
  unfold bind at 1. unfold ret at 1.
  unfold bind at 1. rewrite read_32le_data.
  cbn [fst]. cbv zeta.
  assert (Htr : ((((((tr ++ [Tx [x42]])
                     ++ [Tx [byte_of_Z (Z.of_nat (length block) - 1)]])
                    ++ [Tx block])
                   ++ [Tx [byte_of_Z
                            (calculate_checksum
                               [[x42];
                                [byte_of_Z (Z.of_nat (length block) - 1)];
                                block])]])
                  ++ [Rx 1 [st]])
                 ++ [Rx 4 [o0; o1; o2; o3]])
                = tr ++ frame block ++ ack_reads st (o0, o1, o2, o3)).
  { unfold frame, ack_reads. cbn [word_bytes]. rewrite <- !app_assoc.
    reflexivity. }
  rewrite Htr. clear Htr.
  destruct (Byte.eqb st x21).
  { unfold bind, print. cbn [rx trace out disk].
    unfold send_block. cbn [rx].
    apply send_block_loop_fuel; cbn [rx]; unfold fuel, ack;
      cbn [length app word_bytes map]; lia. }
  destruct (Byte.eqb st x58).
  { reflexivity. }
  destruct (negb (Byte.eqb st x40)).
  { reflexivity. }
  unfold when, written_debug, print, ret. cbn [fst snd].
  destruct (VERBOSE cfg); [reflexivity|].
  rewrite app_nil_r. reflexivity.
Qed.

(** ** The upload: the blocks of a file *)

Lemma send_blocks_loop_fuel (n m : nat) (cfg : config) (dev_path : string)
  (rest : list byte) (w : world) :
  (length rest < n)%nat -> (length rest < m)%nat ->
  send_blocks_loop n cfg dev_path rest w = send_blocks_loop m cfg dev_path rest w.
Proof.
  revert m rest w.
  induction n as [|n IH]; intros m rest w Hn Hm; [lia|].
  destruct m as [|m]; [lia|].
  cbn [send_blocks_loop].
  destruct rest as [|b rest]; [reflexivity|].
  change (firstn 256 (b :: rest)) with (b :: firstn 255 rest).
  cbn [length Nat.eqb].
  unfold bind.
  destruct (send_block cfg dev_path (b :: firstn 255 rest) w)
    as [[[] | c | e |] w1]; try reflexivity.
  pose proof (length_skipn 256 (b :: rest)) as Hs. cbn [length] in Hs, Hn, Hm.
  apply IH; lia.
Qed.

(** The outer loop as the source has it: a block, then the loop again. *)
Lemma send_blocks_eq (cfg : config) (dev_path : string) (content : list byte)
  (w : world) :
  send_blocks cfg dev_path content w =
    (if (length (firstn 256 content) =? 0)%nat then
       when (VERBOSE cfg) (print DbgComplete)
     else
       send_block cfg dev_path (firstn 256 content) ;;;
       send_blocks cfg dev_path (skipn 256 content)) w.
Proof.
  unfold send_blocks at 1. cbn [send_blocks_loop].
  destruct (length (firstn 256 content) =? 0)%nat eqn:E; [reflexivity|].
  unfold bind.
  destruct (send_block cfg dev_path (firstn 256 content) w)
    as [[[] | c | e |] w1]; try reflexivity.
  unfold send_blocks. apply send_blocks_loop_fuel; [|lia].
  destruct content as [|b content]; [discriminate E|].
  pose proof (length_skipn 256 (b :: content)) as Hs. cbn [length] in Hs |- *.
  lia.
Qed.

Lemma firstn_split_add (A : Type) (a b : nat) (l : list A) :
  firstn (a + b) l = firstn a l ++ firstn b (skipn a l).
Proof.
  revert l. induction a as [|a IH]; intros l; [reflexivity|].
  destruct l as [|x l]; cbn [Nat.add firstn skipn app].
  - rewrite firstn_nil. reflexivity.
  - rewrite IH. reflexivity.
Qed.

Lemma skipn_add (A : Type) (a b : nat) (l : list A) :
  skipn b (skipn a l) = skipn (a + b) l.
Proof.
  revert l. induction a as [|a IH]; intros l; [reflexivity|].
  destruct l as [|x l]; cbn [Nat.add skipn].
  - apply skipn_nil.
  - apply IH.
Qed.

Lemma chunks_concat (n : nat) (content : list byte) :
  concat (chunks n content) = firstn (256 * n) content.
Proof.
  revert content. induction n as [|n IH]; intros content.
  - rewrite Nat.mul_0_r. reflexivity.
  - cbn [chunks concat]. rewrite IH.
    replace (256 * S n)%nat with (256 + 256 * n)%nat by lia.
    symmetry. apply firstn_split_add.
Qed.

Lemma chunks_length (n : nat) (content : list byte) :
  length (chunks n content) = n.
Proof.
  revert content. induction n as [|n IH]; intros content; [reflexivity|].
  cbn [chunks length]. rewrite IH. reflexivity.
Qed.

Lemma chunks_sizes (n : nat) (content : list byte) :
  (256 * n < length content + 256)%nat ->
  Forall (fun b => (1 <= length b <= 256)%nat) (chunks n content).
Proof.
  revert content. induction n as [|n IH]; intros content Hn; [constructor|].
  cbn [chunks]. constructor.
  - rewrite length_firstn. lia.
  - apply IH. rewrite length_skipn. lia.
Qed.

Lemma chunks_last (n : nat) (content : list byte) :
  (256 * n < length content + 256)%nat ->
  (length content <= 256 * n)%nat ->
  length (last (chunks n content) []) =
    (if (length content =? 0)%nat then 0
     else if (length content mod 256 =? 0)%nat then 256
          else length content mod 256)%nat.
Proof.
  revert content. induction n as [|n IH]; intros content Hlo Hhi.
  - assert (H0 : length content = 0%nat) by lia. rewrite H0. reflexivity.
  - cbn [chunks].
    destruct n as [|n].
    + cbn [chunks last]. rewrite length_firstn.
      destruct (Nat.eqb_spec (length content) 0) as [E|E]; [lia|].
      destruct (Nat.eqb_spec (length content mod 256) 0) as [E'|E'].
      * destruct (Nat.eq_dec (length content) 256) as [E2|E2]; [lia|].
        rewrite Nat.mod_small in E' by lia. lia.
      * destruct (Nat.eq_dec (length content) 256) as [E2|E2].
        { rewrite E2 in E'. exfalso. apply E'. reflexivity. }
        rewrite Nat.mod_small by lia. lia.
    + change (last (firstn 256 content :: chunks (S n) (skipn 256 content)) [])
        with (last (chunks (S n) (skipn 256 content)) []).
      rewrite IH by (rewrite length_skipn; lia).
      rewrite length_skipn.
      destruct (Nat.eqb_spec (length content - 256) 0) as [E|E]; [lia|].
      destruct (Nat.eqb_spec (length content) 0) as [E0|E0]; [lia|].
      assert (Hm : ((length content - 256) mod 256 = length content mod 256)%nat).
      { replace (length content) with ((length content - 256) + 1 * 256)%nat
          at 2 by lia.
        rewrite Nat.Div0.mod_add. reflexivity. }
      rewrite Hm. reflexivity.
Qed.

Lemma flat_map_ack_length (offs : list word) :
  length (flat_map (ack x40) offs) = (5 * length offs)%nat.
Proof.
  induction offs as [|[[[a b] c] d] offs IH]; [reflexivity|].
  cbn [flat_map ack word_bytes map app length] in *. lia.
Qed.

(** A run of blocks, each accepted at its first sending. *)
Lemma send_blocks_accepted (cfg : config) (dev_path : string)
  (offs : list word) (content : list byte) (s : list item) (tr : list event)
  (o : list msg) (d : list (string * list byte)) :
  (256 * length offs < length content + 256)%nat ->
  send_blocks cfg dev_path content
    (mkWorld (flat_map (ack x40) offs ++ s) tr o d)
  = send_blocks cfg dev_path (skipn (256 * length offs) content)
      (mkWorld s
         (tr ++ flat_map accepted (combine (chunks (length offs) content) offs))
         (o ++ flat_map (written_debug cfg dev_path)
                 (combine (chunks (length offs) content) offs))
         d).
Proof.
  revert content tr o.
  induction offs as [|off offs IH]; intros content tr o Hn.
  - cbn [length flat_map app chunks combine]. rewrite Nat.mul_0_r.
    rewrite !app_nil_r. reflexivity.
  - cbn [length] in Hn.
    rewrite send_blocks_eq.
    assert (Hne : (length (firstn 256 content) =? 0)%nat = false).
    { apply Nat.eqb_neq. rewrite length_firstn. lia. }
    rewrite Hne. unfold bind at 1.
    cbn [flat_map]. rewrite <- app_assoc. rewrite send_block_ack.
    change (Byte.eqb x40 x21) with false.
    change (Byte.eqb x40 x58) with false.
    change (Byte.eqb x40 x40) with true.
    cbv beta iota zeta. cbn [negb]. cbv iota.
    rewrite IH by (rewrite length_skipn; lia).
    rewrite skipn_add.
    replace (256 + 256 * length offs)%nat with (256 * length (off :: offs))%nat
      by (cbn [length]; lia).
    cbn [length chunks combine flat_map].
    unfold accepted at 2. cbn [fst snd].
    rewrite <- !app_assoc. reflexivity.
Qed.

Lemma block_count_bounds (len : nat) :
  (256 * ((len + 255) / 256) < len + 256)%nat
  /\ (len <= 256 * ((len + 255) / 256))%nat.
Proof.
  pose proof (Nat.div_mod_eq (len + 255) 256) as H.
  pose proof (Nat.mod_upper_bound (len + 255) 256) as Hm.
  lia.
Qed.

Lemma send_blocks_nil (cfg : config) (dev_path : string) (w : world) :
  fst (send_blocks cfg dev_path [] w) = Done tt
  /\ rx (snd (send_blocks cfg dev_path [] w)) = rx w
  /\ trace (snd (send_blocks cfg dev_path [] w)) = trace w
  /\ disk (snd (send_blocks cfg dev_path [] w)) = disk w.
Proof.
  rewrite send_blocks_eq. cbn [firstn length Nat.eqb].
  unfold when, print, ret. destruct (VERBOSE cfg); repeat split.
Qed.

(** C4. A file of [S] bytes is sent to a device that accepts every block
    (it answers each block with 0x40 and an offset, for as long as blocks
    come). The block loop ends normally after [ceil(S/256)] blocks (none
    when the file is empty): the calls it makes are, for each block in turn,
    the four writes of the block and the two reads of its acknowledgment,
    and acknowledgments the device has queued beyond that are left unread.
    The blocks are the file content cut in order, each of 1 to 256 bytes;
    the last one has [S mod 256] bytes, or 256 when [S] is a multiple of
    256 and not 0. *)
Theorem blocks_sent (cfg : config) (dev_path : string) (content : list byte)
  (offs : list word) (s : list item) (w : world) :
  let n := ((length content + 255) / 256)%nat in
  (n <= length offs)%nat ->
  rx w = flat_map (ack x40) offs ++ s ->
  exists blocks : list (list byte),
    fst (send_blocks cfg dev_path content w) = Done tt
    /\ trace (snd (send_blocks cfg dev_path content w))
       = trace w ++ flat_map accepted (combine blocks offs)
    /\ rx (snd (send_blocks cfg dev_path content w))
       = flat_map (ack x40) (skipn n offs) ++ s
    /\ length blocks = n
    /\ concat blocks = content
    /\ Forall (fun b => (1 <= length b <= 256)%nat) blocks
    /\ length (last blocks []) =
         (if (length content =? 0)%nat then 0
          else if (length content mod 256 =? 0)%nat then 256
               else length content mod 256)%nat.
Proof.
  intros n Hn Hrx.
  destruct (block_count_bounds (length content)) as [Hlo Hhi]. fold n in Hlo, Hhi.
  destruct w as [s0 tr o d]. cbn [rx trace] in *. subst s0.
  exists (chunks n content).
  assert (Hlen : length (firstn n offs) = n) by (rewrite length_firstn; lia).
  assert (E : send_blocks cfg dev_path content
                (mkWorld (flat_map (ack x40) offs ++ s) tr o d)
              = send_blocks cfg dev_path []
                  (mkWorld (flat_map (ack x40) (skipn n offs) ++ s)
                     (tr ++ flat_map accepted
                              (combine (chunks n content) (firstn n offs)))
                     (o ++ flat_map (written_debug cfg dev_path)
                             (combine (chunks n content) (firstn n offs)))
                     d)).
  { rewrite <- (firstn_skipn n offs) at 1.
    rewrite flat_map_app, <- app_assoc.
    rewrite send_blocks_accepted by (rewrite Hlen; exact Hlo).
    rewrite Hlen. rewrite (skipn_all2 content) by lia. reflexivity. }
  rewrite E. clear E.
  match goal with |- context [send_blocks cfg dev_path [] ?W] =>
    destruct (send_blocks_nil cfg dev_path W) as (H1 & H2 & H3 & _) end.
  rewrite H1, H2, H3. cbn [rx trace].
  assert (Hc : combine (chunks n content) (firstn n offs)
               = combine (chunks n content) offs).
  { rewrite (combine_firstn_l (chunks n content) offs), chunks_length.
    reflexivity. }
  rewrite Hc.
  repeat split.
  - apply chunks_length.
  - rewrite chunks_concat. apply firstn_all2. lia.
  - apply chunks_sizes. exact Hlo.
  - apply chunks_last; assumption.
Qed.

Lemma blocks_sent_witness :
  exists blocks : list (list byte),
    fst (send_blocks (mkConfig false "fs" false 3 3) "/a" (repeat x41 257)
           (mkWorld (flat_map (ack x40) [(x00, x01, x00, x00); (x01, x01, x00, x00)])
                    [] [] []))
    = Done tt
    /\ trace (snd (send_blocks (mkConfig false "fs" false 3 3) "/a"
                     (repeat x41 257)
                     (mkWorld (flat_map (ack x40)
                                 [(x00, x01, x00, x00); (x01, x01, x00, x00)])
                              [] [] [])))
       = [] ++ flat_map accepted
                 (combine blocks [(x00, x01, x00, x00); (x01, x01, x00, x00)])
    /\ rx (snd (send_blocks (mkConfig false "fs" false 3 3) "/a"
                  (repeat x41 257)
                  (mkWorld (flat_map (ack x40)
                              [(x00, x01, x00, x00); (x01, x01, x00, x00)])
                           [] [] [])))
       = [] ++ []
    /\ length blocks = 2%nat
    /\ concat blocks = repeat x41 257
    /\ Forall (fun b => (1 <= length b <= 256)%nat) blocks
    /\ length (last blocks []) = 1%nat.
Proof.
  exact (@blocks_sent (mkConfig false "fs" false 3 3) "/a" (repeat x41 257)
           [(x00, x01, x00, x00); (x01, x01, x00, x00)] []
           (mkWorld (flat_map (ack x40)
                       [(x00, x01, x00, x00); (x01, x01, x00, x00)]) [] [] [])
           (le_n 2) eq_refl).
Defined.




(** ** The upload: files *)

(** C1, as the code has it. The device accepts the open-for-write command
    of a file and a number of its blocks, then answers the next block with
    0x58 and an offset. The client prints the line that names the file and
    the offset and leaves with [exit(1)]: the whole session ends there. The
    last calls it has made are the four writes of the failed block and the
    two reads of its answer; the end-of-file byte 0x46 is not written for
    the file and nothing is written for any later file. *)
Theorem write_failed_ends_session (cfg : config) (pc_path : string)
  (content : list byte) (more : list (string * list byte)) (cmd : list byte)
  (reserved : word) (offs : list word) (off : word) (s : list item)
  (w : world) :
  let dev_path := dev_path_of cfg pc_path in
  write_command dev_path cmd ->
  (256 * length offs < length content)%nat ->
  rx w = ack x40 reserved ++ flat_map (ack x40) offs ++ ack x58 off ++ s ->
  let sent := combine (chunks (length offs) content) offs in
  let failed := firstn 256 (skipn (256 * length offs) content) in
  upload_files cfg ((pc_path, content) :: more) w =
    (Exit 1,
     mkWorld s
       (trace w ++ [Tx cmd; Rx 5 (x40 :: word_bytes reserved)]
          ++ flat_map accepted sent ++ frame failed ++ ack_reads x58 off)
       (out w ++ [InfoUploadFile pc_path dev_path]
          ++ flat_map (written_debug cfg dev_path) sent
          ++ [ErrWriteStuck dev_path (unpack_le (word_bytes off))])
       (disk w)).
Proof.
  intros dev_path [Hcmd Hascii] Hlen Hrx sent failed.
  destruct w as [s0 tr o d]. cbn [rx trace out disk] in *. subst s0.
  destruct reserved as [[[r0 r1] r2] r3].
  cbn [upload_files]. unfold bind at 1.
  unfold upload_file. cbn [fst snd]. fold dev_path.
  unfold bind at 1. unfold print at 1. cbn [rx trace out disk].
  unfold bind at 1. unfold encode_ascii at 1. rewrite Hcmd, Hascii.
  unfold ret at 1.
  unfold bind at 1. unfold device_write at 1, log_event. cbn [rx trace out disk].
  unfold bind at 1. unfold device_read at 1. cbn [rx trace out disk].
  assert (Htake : forall rest,
            take_rx 5 (ack x40 (r0, r1, r2, r3) ++ rest)
            = ([x40; r0; r1; r2; r3], rest)).
  { intros rest. apply (take_rx_data [x40; r0; r1; r2; r3] rest). }
  rewrite Htake. cbn [length Nat.eqb index0].
  unfold bind at 1. unfold ret at 1.
  change (Byte.eqb x40 x58) with false.
  change (Byte.eqb x40 x40) with true. cbv iota. cbn [negb]. cbv iota.
  unfold bind at 1.
  rewrite send_blocks_accepted by lia.
  fold sent.
  rewrite send_blocks_eq. fold failed.
  assert (H0 : (length failed =? 0)%nat = false).
  { apply Nat.eqb_neq. unfold failed. rewrite length_firstn, length_skipn. lia. }
  rewrite H0. unfold bind at 1. rewrite send_block_ack.
  change (Byte.eqb x58 x21) with false.
  change (Byte.eqb x58 x58) with true.
  cbv beta iota zeta. cbn [word_bytes].
  rewrite <- !app_assoc. reflexivity.
Qed.

Lemma write_failed_ends_session_witness :
  upload_files (mkConfig false "fs" false 3 3)
    [("fs/a"%string, [x41]); ("fs/b"%string, [x42])]
    (mkWorld (ack x40 (x00, x00, x00, x00) ++ ack x58 (x00, x00, x00, x00)
              ++ [Data x3e]) [] [] [])
  = (Exit 1,
     mkWorld [Data x3e]
       [Tx [x57; x3a; x2f; x61; x0a]; Rx 5 [x40; x00; x00; x00; x00];
        Tx [x42]; Tx [x00]; Tx [x41]; Tx [x7d];
        Rx 1 [x58]; Rx 4 [x00; x00; x00; x00]]
       [InfoUploadFile "fs/a" "/a"; ErrWriteStuck "/a" 0]
       []).
Proof.
  exact (@write_failed_ends_session (mkConfig false "fs" false 3 3) "fs/a"
           [x41] [("fs/b"%string, [x42])] [x57; x3a; x2f; x61; x0a]
           (x00, x00, x00, x00) [] (x00, x00, x00, x00) [Data x3e]
           (mkWorld (ack x40 (x00, x00, x00, x00) ++ ack x58 (x00, x00, x00, x00)
                     ++ [Data x3e]) [] [] [])
           (conj eq_refl eq_refl) (le_n 1) eq_refl).
Defined.

(** C1, as the specification has it, fails. Two files are to be uploaded
    and the device confirms the reformat, accepts the open of the first
    file, answers its only block with 0x58, and then stands ready to go on
    (ready prompt, open accepted, block accepted, ready prompt). The script
    leaves with [exit(1)] after the answer to the block: what the device
    sends after it is never read and no command is written for the second
    file. *)
Lemma write_failed_stops_the_upload :
  let r :=
    upload (mkConfig false "fs" false 3 3)
      [("fs/a"%string, [x41]); ("fs/b"%string, [x42])]
      (mkWorld (map Data [x2e; x40; x3e;
                          x40; x00; x00; x00; x00;
                          x58; x00; x00; x00; x00;
                          x3e;
                          x40; x00; x00; x00; x00;
                          x40; x01; x00; x00; x00;
                          x3e]) [] [] []) in
  fst r = Exit 1
  /\ trace (snd r)
     = [Tx [x5a; x0a]; Rx 1 [x2e]; Rx 1 [x40]; Rx 1 [x3e];
        Tx [x57; x3a; x2f; x61; x0a]; Rx 5 [x40; x00; x00; x00; x00];
        Tx [x42]; Tx [x00]; Tx [x41]; Tx [x7d];
        Rx 1 [x58]; Rx 4 [x00; x00; x00; x00]]
  /\ out (snd r)
     = [InfoConfirmReformat; InfoReformatting; InfoUploading;
        InfoUploadFile "fs/a" "/a"; ErrWriteStuck "/a" 0]
  /\ rx (snd r)
     = map Data [x3e;
                 x40; x00; x00; x00; x00;
                 x40; x01; x00; x00; x00;
                 x3e]
  /\ ~ In (Tx [x57; x3a; x2f; x62; x0a]) (trace (snd r)).
Proof.
  vm_compute. repeat split.
  intros H. repeat (destruct H as [H|H]; [discriminate H|]). exact H.
Qed.

(** ** The reformat negotiation *)

Lemma poll_silence (n : nat) (init : list byte) (tr : list event)
  (o : list msg) (d : list (string * list byte)) :
  exists polled,
    poll n init (mkWorld [] tr o d)
    = (Done (match n with O => init | S _ => [] end),
       mkWorld [] (tr ++ map (Rx 1) polled) o d).
Proof.
  revert init tr. induction n as [|n IH]; intros init tr.
  - exists []. cbn [poll map]. rewrite app_nil_r. reflexivity.
  - cbn [poll]. unfold bind, device_read. cbn [rx trace out disk take_rx].
    cbn [length Nat.eqb negb].
    destruct (IH [] (tr ++ [Rx 1 []])) as [polled Hp]. rewrite Hp.
    exists ([] :: polled). cbn [map]. rewrite <- app_assoc.
    destruct n; reflexivity.
Qed.

Lemma poll_gaps (n k : nat) (init : list byte) (rest : list item)
  (tr : list event) (o : list msg) (d : list (string * list byte)) :
  (k <= n)%nat ->
  poll n init (mkWorld (repeat Gap k ++ rest) tr o d)
  = poll (n - k) (match k with O => init | S _ => [] end)
      (mkWorld rest (tr ++ map (Rx 1) (repeat [] k)) o d).
Proof.
  revert n init tr. induction k as [|k IH]; intros n init tr Hk.
  - cbn [repeat app map]. rewrite Nat.sub_0_r, app_nil_r. reflexivity.
  - destruct n as [|n]; [lia|].
    cbn [poll repeat app]. unfold bind, device_read.
    cbn [rx trace out disk take_rx]. cbn [Z.leb Z.compare].
    cbn [length Nat.eqb negb].
    rewrite IH by lia. cbn [Nat.sub repeat map]. rewrite <- app_assoc.
    destruct k; reflexivity.
Qed.

Lemma upload_unconfirmed (cfg : config) (files : list (string * list byte))
  (s : list item) (tr : list event) (o : list msg)
  (d : list (string * list byte)) :
  NO_REFORMAT cfg = false ->
  declined cfg s \/ timed_out cfg s ->
  exists polled s' o',
    upload cfg files (mkWorld s tr o d)
    = (Exit 1, mkWorld s' (tr ++ Tx [x5a; x0a] :: map (Rx 1) polled) o' d).
Proof.
  intros Hmode Hdev.
  unfold upload, reformat. rewrite Hmode.
  unfold bind at 1 2 3. unfold print at 1, device_write at 1, log_event.
  cbn [rx trace out disk].
  destruct Hdev as [(k & rest & Hk & ->) | (k & rest & -> & Hend)].
  - unfold bind at 1. rewrite (@poll_gaps (req_polls cfg) k) by lia.
    destruct (req_polls cfg - k)%nat as [|m] eqn:Em; [lia|].
    cbn [poll]. unfold bind at 1. unfold device_read at 1.
    cbn [rx trace out disk]. rewrite take_rx_one_data.
    cbn [length Nat.eqb negb]. unfold ret at 1.
    cbn [length Nat.eqb index0]. unfold bind at 1. unfold ret at 1.
    change (Byte.eqb x58 x58) with true. cbv iota.
    exists (repeat [] k ++ [[x58]]).
    unfold bind, print, ret, exit. cbn [negb rx trace out disk].
    rewrite map_app, <- !app_assoc. eexists. eexists. reflexivity.
  - destruct Hend as [-> | ->].
    + unfold bind at 1.
      rewrite (@poll_gaps (req_polls cfg) (req_polls cfg)) by lia.
      rewrite Nat.sub_diag. cbn [poll]. unfold ret at 1.
      exists (repeat [] (req_polls cfg)).
      destruct (req_polls cfg); cbn [length Nat.eqb];
        unfold bind, print, exit; cbn [rx trace out disk];
        rewrite <- !app_assoc; eexists; eexists; reflexivity.
    + destruct (Nat.le_gt_cases k (req_polls cfg)) as [Hle|Hgt].
      * unfold bind at 1. rewrite (@poll_gaps (req_polls cfg) k) by lia.
        match goal with |- context [poll ?n ?i (mkWorld [] ?t ?oo ?dd)] =>
          destruct (poll_silence n i t oo dd) as [polled Hp] end.
        rewrite Hp.
        exists (repeat [] k ++ polled).
        destruct (req_polls cfg - k)%nat eqn:Em; destruct k;
          cbn [length Nat.eqb];
          unfold bind, print, exit; cbn [rx trace out disk];
          rewrite map_app, <- !app_assoc; eexists; eexists; reflexivity.
      * replace k with (req_polls cfg + (k - req_polls cfg))%nat by lia.
        rewrite repeat_app, <- app_assoc.
        unfold bind at 1.
        rewrite (@poll_gaps (req_polls cfg) (req_polls cfg)) by lia.
        rewrite Nat.sub_diag. cbn [poll]. unfold ret at 1.
        exists (repeat [] (req_polls cfg)).
        destruct (req_polls cfg); cbn [length Nat.eqb];
          unfold bind, print, exit; cbn [rx trace out disk];
          rewrite <- !app_assoc; eexists; eexists; reflexivity.
Qed.

(** C8. The script is in reformat mode and has written [Z]. When the
    device answers 0x58 within the window of the request, or the window
    closes with nothing received, the script leaves with [exit(1)]; all it
    has done on the port is to write [Z] and to read one byte at a time
    while it waited. No open-for-write command, and no other write, is
    made. *)
Theorem no_upload_without_confirmation (cfg : config)
  (files : list (string * list byte)) (w : world) :
  NO_REFORMAT cfg = false ->
  declined cfg (rx w) \/ timed_out cfg (rx w) ->
  exists polled,
    fst (upload cfg files w) = Exit 1
    /\ trace (snd (upload cfg files w))
       = trace w ++ Tx [x5a; x0a] :: map (Rx 1) polled.
Proof.
  intros Hmode Hdev. destruct w as [s tr o d]. cbn [rx trace] in *.
  destruct (upload_unconfirmed files tr o d Hmode Hdev)
    as (polled & s' & o' & E).
  exists polled. rewrite E. split; reflexivity.
Qed.

Lemma no_upload_without_confirmation_witness :
  exists polled,
    fst (upload (mkConfig false "fs" false 3 3) [("fs/a"%string, [x41])]
           (mkWorld [Gap; Data x58; Data x3e] [] [] []))
    = Exit 1
    /\ trace (snd (upload (mkConfig false "fs" false 3 3)
                     [("fs/a"%string, [x41])]
                     (mkWorld [Gap; Data x58; Data x3e] [] [] [])))
       = [] ++ Tx [x5a; x0a] :: map (Rx 1) polled.
Proof.
  apply (@no_upload_without_confirmation (mkConfig false "fs" false 3 3)
           [("fs/a"%string, [x41])]
           (mkWorld [Gap; Data x58; Data x3e] [] [] [])).
  - reflexivity.
  - left. exists 1%nat, [Data x3e]. split; [simpl; lia | reflexivity].
Defined.

(** ** The loops always come to an end *)

(** The bound [S (length rx)] on the turns of the listing loop is never
    reached. *)
Lemma read_listing_total (fs_listing : dict) (w : world) :
  fst (read_listing fs_listing w) <> OutOfFuel.
Proof.
  unfold read_listing.
  assert (H : forall n l w', (length (rx w') < n)%nat ->
                             fst (listing_loop n l w') <> OutOfFuel).
  { clear. induction n as [|n IH]; intros l w Hn; [lia|].
    cbn [listing_loop]. unfold bind.
    destruct (read_32le w) as [[sz | c | e |] w1] eqn:E1; try discriminate.
    - apply read_32le_rx in E1.
      unfold device_read_until.
      pose proof (take_until_length x00 (rx w1)) as Hu.
      destruct (take_until x00 (rx w1)) as [raw rest]. simpl in Hu.
      unfold decode_ascii.
      destruct (forallb is_ascii (removelast raw)); [|discriminate].
      unfold ret.
      destruct ((fst sz =? 4294967295)
                && (String.length (string_of_list_byte (removelast raw)) =? 0)%nat);
        [discriminate|].
      apply IH. simpl. lia.
    - rewrite read_32le_spec in E1. cbv zeta in E1.
      destruct (length (fst (take_rx 4 (rx w))) =? 4)%nat; discriminate E1. }
  apply H. lia.
Qed.

(** The same for the resending of a block. *)
Lemma send_block_total (cfg : config) (dev_path : string) (block : list byte)
  (w : world) :
  fst (send_block cfg dev_path block w) <> OutOfFuel.
Proof.
  unfold send_block.
  assert (H : forall n w', (length (rx w') < n)%nat ->
                fst (send_block_loop n cfg dev_path block w') <> OutOfFuel).
  { clear. induction n as [|n IH]; intros w Hn; [lia|].
    destruct w as [s tr o d]. cbn [rx] in Hn.
    cbn [send_block_loop].
    unfold bind at 1 2 3 4. unfold device_write, log_event.
    cbn [rx trace out disk].
    unfold bind at 1. unfold device_read at 1. cbn [rx trace out disk].
    pose proof (take_rx_length 1 s) as [Hlen _].
    destruct (take_rx 1 s) as [result s1]. cbn [fst snd] in Hlen.
    destruct result as [|r result]; [discriminate|].
    cbn [length Nat.eqb index0].
    unfold bind at 1. unfold ret at 1. unfold bind at 1.
    match goal with |- context [read_32le ?W] =>
      pose proof (read_32le_spec W) as Hspec;
      destruct (read_32le W) as [[off | c | e |] w1] eqn:E1 end;
      cbv zeta in Hspec;
      try (destruct (length (fst (take_rx 4 (rx _))) =? 4)%nat;
           discriminate Hspec);
      try discriminate.
    apply read_32le_rx in E1. cbn [rx] in E1.
    destruct (Byte.eqb r x21).
    - unfold bind, print. cbn [rx trace out disk].
      apply IH. cbn [rx]. cbn [length] in Hlen. lia.
    - destruct (Byte.eqb r x58); [discriminate|].
      destruct (negb (Byte.eqb r x40)); [discriminate|].
      unfold when, print, ret. destruct (VERBOSE cfg); discriminate. }
  apply H. lia.
Qed.

(** The same for the block loop of a file. *)
Lemma send_blocks_total (cfg : config) (dev_path : string)
  (content : list byte) (w : world) :
  fst (send_blocks cfg dev_path content w) <> OutOfFuel.
Proof.
  unfold send_blocks.
  assert (H : forall n rest w', (length rest < n)%nat ->
                fst (send_blocks_loop n cfg dev_path rest w') <> OutOfFuel).
  { clear. induction n as [|n IH]; intros rest w Hn; [lia|].
    cbn [send_blocks_loop].
    destruct rest as [|b rest].
    - cbn [firstn length Nat.eqb]. unfold when, print, ret.
      destruct (VERBOSE cfg); discriminate.
    - change (firstn 256 (b :: rest)) with (b :: firstn 255 rest).
      cbn [length Nat.eqb]. unfold bind.
      pose proof (send_block_total cfg dev_path (b :: firstn 255 rest) w) as Ht.
      destruct (send_block cfg dev_path (b :: firstn 255 rest) w)
        as [[[] | c | e |] w1]; try discriminate.
      + pose proof (length_skipn 256 (b :: rest)) as Hs.
        cbn [length] in Hs, Hn. apply IH. lia.
      + exfalso. apply Ht. reflexivity. }
  apply H. lia.
Qed.


(** ** The paths of a listing can be asked for *)



Lemma dict_set_keys (d : dict) (k : string) (v : Z) (k' : string) :
  In k' (map fst (dict_set d k v)) -> k' = k \/ In k' (map fst d).
Proof.
  induction d as [|[k0 v0] d IH]; cbn [dict_set map fst In].
  - intros [H|[]]. left. symmetry. exact H.
  - destruct (String.eqb k k0) eqn:E; cbn [map fst In].
    + intros [H|H]; [left; symmetry; exact H | right; right; exact H].
    + intros [H|H]; [right; left; exact H|].
      destruct (IH H) as [H'|H']; [left; exact H' | right; right; exact H'].
Qed.

(** Every path the listing loop records is ASCII. *)
Lemma read_listing_keys (fs_listing fs_listing' : dict) (w w' : world) :
  (forall k, In k (map fst fs_listing) -> ascii_str k) ->
  read_listing fs_listing w = (Done fs_listing', w') ->
  forall k, In k (map fst fs_listing') -> ascii_str k.
Proof.
  unfold read_listing. generalize (S (length (rx w))) as n.
  intros n. revert fs_listing w.
  induction n as [|n IH]; intros fs_listing w Hk; [discriminate|].
  cbn [listing_loop]. unfold bind.
  destruct (read_32le w) as [[sz | c | e |] w1]; try discriminate.
  unfold device_read_until.
  destruct (take_until x00 (rx w1)) as [raw rest].
  unfold decode_ascii.
  destruct (forallb is_ascii (removelast raw)) eqn:Ea; [|discriminate].
  unfold ret.
  destruct ((fst sz =? 4294967295)
            && (String.length (string_of_list_byte (removelast raw)) =? 0)%nat).
  - intros H. inversion H. subst. exact Hk.
  - apply IH. intros k Hin.
    destruct (dict_set_keys _ _ _ _ Hin) as [-> | Hin']; [|apply Hk; exact Hin'].
    unfold ascii_str. rewrite list_byte_of_string_of_list_byte. exact Ea.
Qed.


(** * Further properties of the protocol engine *)

(** ** Opening a file on the device *)

(** [upload_file] up to the answer to the open-for-write command. *)
Lemma upload_file_open (cfg : config) (pc_path : string) (content : list byte)
  (cmd : list byte) (w : world) :
  let dev_path := dev_path_of cfg pc_path in
  write_command dev_path cmd ->
  let got := fst (take_rx 5 (rx w)) in
  let opened := fun msgs =>
    mkWorld (snd (take_rx 5 (rx w))) (trace w ++ [Tx cmd; Rx 5 got])
            (out w ++ InfoUploadFile pc_path dev_path :: msgs) (disk w) in
  upload_file cfg (pc_path, content) w =
    match got with
    | [] => (Exit 1, opened [ErrOpenTimeout dev_path])
    | b :: _ =>
        if Byte.eqb b x58 then (Done tt, opened [ErrCannotCreate dev_path])
        else if negb (Byte.eqb b x40) then
          (Exit 1, opened [ErrUnexpectedOpen b])
        else
          (send_blocks cfg dev_path content ;;;
           when (VERBOSE cfg) (print DbgTerminating) ;;;
           device_write [x46] ;;;
           wait_ready) (opened [])
    end.
Proof.
  intros dev_path [Hcmd Hascii] got opened.
  destruct w as [s tr o d]. cbn [rx trace out disk] in *.
  unfold upload_file. cbn [fst snd]. fold dev_path.
  unfold bind at 1. unfold print at 1. cbn [rx trace out disk].
  unfold bind at 1. unfold encode_ascii at 1. rewrite Hcmd, Hascii.
  unfold ret at 1.
  unfold bind at 1. unfold device_write at 1, log_event. cbn [rx trace out disk].
  unfold bind at 1. unfold device_read at 1. cbn [rx trace out disk].
  unfold opened, got. clear opened got.
  destruct (take_rx 5 s) as [got rest]. cbn [fst snd].
  rewrite <- !app_assoc. cbn [app].
  destruct got as [|b got].
  - cbn [length Nat.eqb]. unfold bind, print, exit. cbn [rx trace out disk].
    rewrite <- app_assoc. reflexivity.
  - cbn [length Nat.eqb index0]. unfold bind at 1. unfold ret at 1.
    destruct (Byte.eqb b x58).
    { unfold print. cbn [rx trace out disk]. rewrite <- app_assoc.
      reflexivity. }
    destruct (negb (Byte.eqb b x40)).
    { unfold bind, print, exit. cbn [rx trace out disk].
      rewrite <- app_assoc. reflexivity. }
    reflexivity.
Qed.



(** X2. When the read that follows the open-for-write command returns
    nothing, or a first byte that is neither 0x40 nor 0x58, the script
    prints the matching error and leaves with [exit(1)]; the command and
    the read are the last calls it makes, whatever files are still to
    come. *)
Theorem failed_open_ends_session (cfg : config) (pc_path : string)
  (content : list byte) (files : list (string * list byte))
  (cmd got : list byte) (rest : list item) (w : world) :
  let dev_path := dev_path_of cfg pc_path in
  write_command dev_path cmd ->
  take_rx 5 (rx w) = (got, rest) ->
  (forall more, got <> x40 :: more /\ got <> x58 :: more) ->
  upload_files cfg ((pc_path, content) :: files) w =
    (Exit 1,
     mkWorld rest (trace w ++ [Tx cmd; Rx 5 got])
       (out w ++ [InfoUploadFile pc_path dev_path;
                  match got with
                  | [] => ErrOpenTimeout dev_path
                  | b :: _ => ErrUnexpectedOpen b
                  end])
       (disk w)).
Proof.
  intros dev_path Hcmd Htake Hst.
  cbn [upload_files]. unfold bind.
  rewrite (upload_file_open cfg pc_path content w Hcmd).
  rewrite Htake. cbn [fst snd].
  destruct got as [|b got]; [reflexivity|].
  destruct (Byte.eqb b x58) eqn:E1.
  { apply Byte.byte_dec_bl in E1. subst b.
    destruct (Hst got) as [_ H]. congruence. }
  destruct (Byte.eqb b x40) eqn:E2.
  { apply Byte.byte_dec_bl in E2. subst b.
    destruct (Hst got) as [H _]. congruence. }
  reflexivity.
Qed.

Lemma failed_open_ends_session_witness :
  upload_files (mkConfig false "fs" false 3 3)
    [("fs/a"%string, [x41]); ("fs/b"%string, [])]
    (mkWorld (map Data [x3f; x3e]) [] [] [])
  = (Exit 1,
     mkWorld [] [Tx [x57; x3a; x2f; x61; x0a]; Rx 5 [x3f; x3e]]
       [InfoUploadFile "fs/a" "/a"; ErrUnexpectedOpen x3f] []).
Proof.
  apply (@failed_open_ends_session (mkConfig false "fs" false 3 3) "fs/a" [x41]
           [("fs/b"%string, [])] [x57; x3a; x2f; x61; x0a] [x3f; x3e] []
           (mkWorld (map Data [x3f; x3e]) [] [] [])).
  - split; reflexivity.
  - reflexivity.
  - intros more. split; discriminate.
Defined.

(** ** A file the device accepts *)

Lemma upload_file_accepted (cfg : config) (pc_path : string)
  (content : list byte) (reserved : word) (offs : list word)
  (rest : list item) (tr : list event) (o : list msg)
  (d : list (string * list byte)) :
  forallb is_ascii (write_command_of cfg pc_path) = true ->
  acks_fit (pc_path, content) (reserved, offs) ->
  exists o',
    upload_file cfg (pc_path, content)
      (mkWorld (file_wire (reserved, offs) ++ rest) tr o d)
    = (Done tt,
       mkWorld rest
         (tr ++ file_trace cfg ((pc_path, content), (reserved, offs))) o' d).
Proof.
  intros Hascii Hfit. unfold acks_fit in Hfit. cbn [fst snd] in Hfit.
  destruct (block_count_bounds (length content)) as [Hlo Hhi].
  rewrite <- Hfit in Hlo, Hhi.
  assert (Hcmd : write_command (dev_path_of cfg pc_path)
                   (write_command_of cfg pc_path)) by (split; [reflexivity|exact Hascii]).
  rewrite (upload_file_open cfg pc_path content _ Hcmd).
  cbn [rx trace out disk]. unfold file_wire. cbn [fst snd].
  destruct reserved as [[[r0 r1] r2] r3].
  assert (Htake : forall s,
            take_rx 5 (ack x40 (r0, r1, r2, r3) ++ s)
            = ([x40; r0; r1; r2; r3], s)).
  { intros s. apply (take_rx_data [x40; r0; r1; r2; r3] s). }
  rewrite <- !app_assoc. rewrite Htake. cbn [fst snd].
  change (Byte.eqb x40 x58) with false.
  change (Byte.eqb x40 x40) with true. cbv iota. cbn [negb]. cbv iota.
  unfold bind at 1.
  rewrite send_blocks_accepted by exact Hlo.
  rewrite (skipn_all2 content) by exact Hhi.
  rewrite send_blocks_eq. cbn [firstn length Nat.eqb].
  set (W := mkWorld _ _ _ d).
  assert (Hw : exists o1,
            when (VERBOSE cfg) (print DbgComplete) W
            = (Done tt, mkWorld (rx W) (trace W) o1 d)).
  { unfold when, print, ret. destruct (VERBOSE cfg); eexists; reflexivity. }
  destruct Hw as [o1 Hw]. rewrite Hw. clear Hw.
  unfold bind at 1.
  set (W1 := mkWorld _ _ o1 d).
  assert (Hw : exists o2,
            when (VERBOSE cfg) (print DbgTerminating) W1
            = (Done tt, mkWorld (rx W1) (trace W1) o2 d)).
  { unfold when, print, ret. destruct (VERBOSE cfg); eexists; reflexivity. }
  destruct Hw as [o2 Hw]. rewrite Hw. clear Hw.
  subst W1 W. cbn [rx trace out disk].
  unfold bind at 1. unfold device_write, log_event. cbn [rx trace out disk].
  rewrite wait_ready_eq. cbn [rx trace out disk app].
  change (Byte.eqb x3e x3e) with true. cbv iota.
  exists o2. unfold file_trace. cbn [word_bytes].
  rewrite <- !app_assoc. reflexivity.
Qed.

(** X3. A file is uploaded to a device that accepts the open command,
    acknowledges each block with 0x40 and answers the end-of-file byte with
    the ready prompt. The upload of the file ends normally; the calls made
    are the open command and its five-byte answer, then for each 256-byte
    block of the content in order its four writes and two reads, then the
    byte 0x46 and the read of the prompt. The payloads written, put end to
    end, are the content of the file; for an empty file no block is
    written. Nothing on the PC's disk changes. *)
Theorem accepted_file_is_sent_whole (cfg : config) (pc_path : string)
  (content : list byte) (reserved : word) (offs : list word)
  (rest : list item) (w : world) :
  forallb is_ascii (write_command_of cfg pc_path) = true ->
  acks_fit (pc_path, content) (reserved, offs) ->
  rx w = file_wire (reserved, offs) ++ rest ->
  let blocks := chunks (length offs) content in
  let r := upload_file cfg (pc_path, content) w in
  fst r = Done tt
  /\ rx (snd r) = rest
  /\ trace (snd r)
     = trace w
       ++ [Tx (write_command_of cfg pc_path); Rx 5 (x40 :: word_bytes reserved)]
       ++ flat_map accepted (combine blocks offs)
       ++ [Tx [x46]; Rx 1 [x3e]]
  /\ concat blocks = content
  /\ (content = [] -> blocks = [])
  /\ disk (snd r) = disk w.
Proof.
  intros Hascii Hfit Hrx blocks r.
  destruct w as [s tr o d]. cbn [rx trace disk] in *. subst s.
  destruct (@upload_file_accepted cfg pc_path content reserved offs rest
              tr o d Hascii Hfit) as [o' E].
  unfold r. rewrite E. cbn [fst snd rx trace disk].
  unfold acks_fit in Hfit. cbn [fst snd] in Hfit.
  destruct (block_count_bounds (length content)) as [Hlo Hhi].
  rewrite <- Hfit in Hhi.
  repeat split.
  - unfold blocks. rewrite chunks_concat. apply firstn_all2. exact Hhi.
  - intros ->. unfold blocks. cbn [length] in Hfit.
    change ((0 + 255) / 256)%nat with 0%nat in Hfit. rewrite Hfit. reflexivity.
Qed.

Lemma accepted_file_is_sent_whole_witness :
  let r :=
    upload_file (mkConfig false "fs" false 3 3) ("fs/a"%string, repeat x41 257)
      (mkWorld (file_wire ((x00, x00, x00, x00),
                           [(x00, x01, x00, x00); (x01, x01, x00, x00)])
                ++ [Data x09]) [] [] []) in
  fst r = Done tt
  /\ rx (snd r) = [Data x09]
  /\ trace (snd r)
     = [] ++ [Tx [x57; x3a; x2f; x61; x0a]; Rx 5 [x40; x00; x00; x00; x00]]
       ++ flat_map accepted
            (combine (chunks 2 (repeat x41 257))
               [(x00, x01, x00, x00); (x01, x01, x00, x00)])
       ++ [Tx [x46]; Rx 1 [x3e]]
  /\ concat (chunks 2 (repeat x41 257)) = repeat x41 257
  /\ (repeat x41 257 = [] -> chunks 2 (repeat x41 257) = [])
  /\ disk (snd r) = [].
Proof.
  exact (@accepted_file_is_sent_whole (mkConfig false "fs" false 3 3) "fs/a"
           (repeat x41 257) (x00, x00, x00, x00)
           [(x00, x01, x00, x00); (x01, x01, x00, x00)] [Data x09]
           (mkWorld (file_wire ((x00, x00, x00, x00),
                                [(x00, x01, x00, x00); (x01, x01, x00, x00)])
                     ++ [Data x09]) [] [] [])
           eq_refl eq_refl eq_refl).
Defined.

(** ** A tree the device accepts *)

Lemma upload_files_accepted (cfg : config) (files : list (string * list byte))
  (acks : list (word * list word)) :
  Forall (fun f => forallb is_ascii (write_command_of cfg (fst f)) = true)
         files ->
  Forall2 acks_fit files acks ->
  forall (rest : list item) (tr : list event) (o : list msg)
         (d : list (string * list byte)),
  exists o',
    upload_files cfg files (mkWorld (flat_map file_wire acks ++ rest) tr o d)
    = (Done tt,
       mkWorld rest (tr ++ flat_map (file_trace cfg) (combine files acks)) o' d).
Proof.
  intros Hascii Hfit. induction Hfit as [|[pc_path content] [reserved offs]
                                           files acks Hf Hfit IH];
    intros rest tr o d.
  - exists o. cbn. rewrite app_nil_r. reflexivity.
  - inversion Hascii as [|f fs Ha Has]; subst.
    cbn [upload_files flat_map combine]. unfold bind.
    rewrite <- app_assoc.
    destruct (@upload_file_accepted cfg pc_path content reserved offs
                (flat_map file_wire acks ++ rest) tr o d Ha Hf) as [o1 E].
    rewrite E.
    destruct (IH Has rest
                (tr ++ file_trace cfg ((pc_path, content), (reserved, offs)))
                o1 d) as [o2 E2].
    rewrite E2. exists o2. rewrite <- app_assoc. reflexivity.
Qed.

(** X4. The files of the walk are uploaded to a device that accepts every
    open command and every block and answers every end-of-file byte with the
    ready prompt. The loop over the files ends normally, having read exactly
    what the device sent for them; the calls it has made are those of the
    first file, then those of the second, and so on in the order of the
    walk, with nothing in between. Nothing on the PC's disk changes. *)
Theorem accepted_tree_is_sent_in_order (cfg : config)
  (files : list (string * list byte)) (acks : list (word * list word))
  (rest : list item) (w : world) :
  Forall (fun f => forallb is_ascii (write_command_of cfg (fst f)) = true)
         files ->
  Forall2 acks_fit files acks ->
  rx w = flat_map file_wire acks ++ rest ->
  let r := upload_files cfg files w in
  fst r = Done tt
  /\ rx (snd r) = rest
  /\ trace (snd r) = trace w ++ flat_map (file_trace cfg) (combine files acks)
  /\ disk (snd r) = disk w.
Proof.
  intros Hascii Hfit Hrx r.
  destruct w as [s tr o d]. cbn [rx trace disk] in *. subst s.
  destruct (@upload_files_accepted cfg files acks Hascii Hfit rest tr o d)
    as [o' E].
  unfold r. rewrite E. repeat split.
Qed.

Lemma accepted_tree_is_sent_in_order_witness :
  let r :=
    upload_files (mkConfig false "fs" false 3 3)
      [("fs/a"%string, [x41]); ("fs/b"%string, [])]
      (mkWorld (flat_map file_wire
                  [((x00, x00, x00, x00), [(x01, x00, x00, x00)]);
                   ((x00, x00, x00, x00), [])]
                ++ []) [] [] []) in
  fst r = Done tt
  /\ rx (snd r) = []
  /\ trace (snd r)
     = [] ++ flat_map (file_trace (mkConfig false "fs" false 3 3))
               (combine [("fs/a"%string, [x41]); ("fs/b"%string, [])]
                  [((x00, x00, x00, x00), [(x01, x00, x00, x00)]);
                   ((x00, x00, x00, x00), [])])
  /\ disk (snd r) = [].
Proof.
  apply (@accepted_tree_is_sent_in_order (mkConfig false "fs" false 3 3)
           [("fs/a"%string, [x41]); ("fs/b"%string, [])]
           [((x00, x00, x00, x00), [(x01, x00, x00, x00)]);
            ((x00, x00, x00, x00), [])] []).
  - repeat constructor.
  - repeat constructor.
  - reflexivity.
Defined.

(** ** Wipe and reformat *)

Lemma poll_answer (n k : nat) (init : list byte) (b : byte)
  (rest : list item) (tr : list event) (o : list msg)
  (d : list (string * list byte)) :
  (k < n)%nat ->
  poll n init (mkWorld (repeat Gap k ++ Data b :: rest) tr o d)
  = (Done [b], mkWorld rest (tr ++ map (Rx 1) (repeat [] k ++ [[b]])) o d).
Proof.
  intros Hk. rewrite (@poll_gaps n k) by lia.
  destruct (n - k)%nat as [|m] eqn:E; [lia|].
  cbn [poll]. unfold bind, device_read. cbn [rx trace out disk].
  rewrite take_rx_one_data. cbn [length Nat.eqb negb]. unfold ret.
  rewrite map_app, <- app_assoc. reflexivity.
Qed.

(** X5. In reformat mode, when the device sends 0x2E within the window of
    the request and then 0x40 within the window of the reformat, followed by
    the ready prompt, the script goes on to upload the files: up to there it
    has written [Z] and nothing else, and has read one byte at a time. *)
Theorem confirmed_reformat_starts_upload (cfg : config)
  (files : list (string * list byte)) (k1 k2 : nat) (s : list item)
  (w : world) :
  NO_REFORMAT cfg = false ->
  (k1 < req_polls cfg)%nat ->
  (k2 < fmt_polls cfg)%nat ->
  rx w = repeat Gap k1 ++ Data x2e :: repeat Gap k2
         ++ Data x40 :: Data x3e :: s ->
  upload cfg files w =
    upload_files cfg files
      (mkWorld s
         (trace w ++ Tx [x5a; x0a]
            :: map (Rx 1) (repeat [] k1 ++ [[x2e]] ++ repeat [] k2
                           ++ [[x40]; [x3e]]))
         (out w ++ [InfoConfirmReformat; InfoReformatting; InfoUploading])
         (disk w)).
Proof.
  intros Hmode H1 H2 Hrx.
  destruct w as [s0 tr o d]. cbn [rx trace out disk] in *. subst s0.
  unfold upload, reformat. rewrite Hmode.
  unfold bind at 1 2 3. unfold print at 1, device_write at 1, log_event.
  cbn [rx trace out disk].
  unfold bind at 1. rewrite (@poll_answer (req_polls cfg) k1) by exact H1.
  cbn [length Nat.eqb index0]. unfold bind at 1. unfold ret at 1.
  change (Byte.eqb x2e x58) with false.
  change (Byte.eqb x2e x2e) with true. cbv iota. cbn [negb]. cbv iota.
  unfold bind at 1. unfold print at 1. cbn [rx trace out disk].
  unfold bind at 1. rewrite (@poll_answer (fmt_polls cfg) k2) by exact H2.
  cbn [length Nat.eqb index0]. unfold bind at 1. unfold ret at 1.
  change (Byte.eqb x40 x58) with false.
  change (Byte.eqb x40 x40) with true. cbv iota. cbn [negb]. cbv iota.
  unfold ret at 1. cbn [negb]. cbv iota.
  unfold bind at 1. rewrite wait_ready_eq. cbn [rx trace out disk].
  change (Byte.eqb x3e x3e) with true. cbv iota.
  unfold bind at 1. unfold print at 1. cbn [rx trace out disk].
  rewrite !map_app, <- !app_assoc. cbn [map app]. reflexivity.
Qed.

Lemma confirmed_reformat_starts_upload_witness :
  upload (mkConfig false "fs" false 3 3) [("fs/b"%string, [])]
    (mkWorld (repeat Gap 2 ++ Data x2e :: repeat Gap 0
              ++ Data x40 :: Data x3e :: [Data x58]) [] [] [])
  = upload_files (mkConfig false "fs" false 3 3) [("fs/b"%string, [])]
      (mkWorld [Data x58]
         ([] ++ Tx [x5a; x0a]
             :: map (Rx 1) (repeat [] 2 ++ [[x2e]] ++ repeat [] 0
                            ++ [[x40]; [x3e]]))
         ([] ++ [InfoConfirmReformat; InfoReformatting; InfoUploading])
         []).
Proof.
  apply (@confirmed_reformat_starts_upload (mkConfig false "fs" false 3 3)
           [("fs/b"%string, [])] 2 0 [Data x58]
           (mkWorld (repeat Gap 2 ++ Data x2e :: repeat Gap 0
                     ++ Data x40 :: Data x3e :: [Data x58]) [] [] [])).
  - reflexivity.
  - simpl. lia.
  - simpl. lia.
  - reflexivity.
Defined.

Lemma upload_after_failed_reformat (cfg : config)
  (files : list (string * list byte)) (k1 : nat) (tail : list item)
  (tr : list event) (o : list msg) (d : list (string * list byte)) :
  NO_REFORMAT cfg = false ->
  (k1 < req_polls cfg)%nat ->
  reformat_fails cfg tail ->
  exists polled s' o',
    upload cfg files (mkWorld (repeat Gap k1 ++ Data x2e :: tail) tr o d)
    = (Exit 1, mkWorld s' (tr ++ Tx [x5a; x0a] :: map (Rx 1) polled) o' d).
Proof.
  intros Hmode H1 Hfail.
  unfold upload, reformat. rewrite Hmode.
  unfold bind at 1 2 3. unfold print at 1, device_write at 1, log_event.
  cbn [rx trace out disk].
  unfold bind at 1. rewrite (@poll_answer (req_polls cfg) k1) by exact H1.
  cbn [length Nat.eqb index0]. unfold bind at 1. unfold ret at 1.
  change (Byte.eqb x2e x58) with false.
  change (Byte.eqb x2e x2e) with true. cbv iota. cbn [negb]. cbv iota.
  unfold bind at 1. unfold print at 1. cbn [rx trace out disk].
  destruct Hfail as [(k & st & rest & Hk & Hst & ->) | (rest & ->)].
  - unfold bind at 1. rewrite (@poll_answer (fmt_polls cfg) k) by exact Hk.
    cbn [length Nat.eqb index0]. unfold bind at 1. unfold ret at 1.
    exists (repeat [] k1 ++ [[x2e]] ++ repeat [] k ++ [[st]]).
    rewrite !map_app, <- !app_assoc. cbn [map app].
    destruct (Byte.eqb st x58).
    { unfold bind, print, exit. cbn [rx trace out disk].
      eexists. eexists. reflexivity. }
    destruct (Byte.eqb st x40) eqn:E.
    { apply Byte.byte_dec_bl in E. congruence. }
    cbn [negb]. unfold bind, print, exit. cbn [rx trace out disk].
    eexists. eexists. reflexivity.
  - unfold bind at 1.
    rewrite (@poll_gaps (fmt_polls cfg) (fmt_polls cfg)) by lia.
    rewrite Nat.sub_diag. cbn [poll]. unfold ret at 1.
    exists (repeat [] k1 ++ [[x2e]] ++ repeat [] (fmt_polls cfg)).
    rewrite !map_app, <- !app_assoc. cbn [map app].
    destruct (fmt_polls cfg); cbn [length Nat.eqb index0 repeat map app];
      unfold bind, ret, print, exit; cbn [rx trace out disk];
      change (Byte.eqb x2e x58) with false;
      change (Byte.eqb x2e x40) with false; cbn [negb]; cbv iota;
      eexists; eexists; reflexivity.
Qed.

(** X6. In reformat mode, when the device confirms the request with 0x2E
    but then reports a result other than 0x40 within the window of the
    reformat, or nothing within it, the script leaves with [exit(1)]: all
    it has written to the port is [Z], and no file is opened on the
    device. *)
Theorem failed_reformat_is_fatal (cfg : config)
  (files : list (string * list byte)) (k1 : nat) (tail : list item)
  (w : world) :
  NO_REFORMAT cfg = false ->
  (k1 < req_polls cfg)%nat ->
  reformat_fails cfg tail ->
  rx w = repeat Gap k1 ++ Data x2e :: tail ->
  exists polled,
    fst (upload cfg files w) = Exit 1
    /\ trace (snd (upload cfg files w))
       = trace w ++ Tx [x5a; x0a] :: map (Rx 1) polled
    /\ disk (snd (upload cfg files w)) = disk w.
Proof.
  intros Hmode H1 Hfail Hrx.
  destruct w as [s tr o d]. cbn [rx trace disk] in *. subst s.
  destruct (@upload_after_failed_reformat cfg files k1 tail tr o d
              Hmode H1 Hfail) as (polled & s' & o' & E).
  exists polled. rewrite E. repeat split.
Qed.

Lemma failed_reformat_is_fatal_witness :
  exists polled,
    fst (upload (mkConfig false "fs" false 3 3) [("fs/a"%string, [x41])]
           (mkWorld [Data x2e; Gap; Data x58; Data x3e] [] [] []))
    = Exit 1
    /\ trace (snd (upload (mkConfig false "fs" false 3 3)
                     [("fs/a"%string, [x41])]
                     (mkWorld [Data x2e; Gap; Data x58; Data x3e] [] [] [])))
       = [] ++ Tx [x5a; x0a] :: map (Rx 1) polled
    /\ disk (snd (upload (mkConfig false "fs" false 3 3)
                    [("fs/a"%string, [x41])]
                    (mkWorld [Data x2e; Gap; Data x58; Data x3e] [] [] [])))
       = [].
Proof.
  apply (@failed_reformat_is_fatal (mkConfig false "fs" false 3 3)
           [("fs/a"%string, [x41])] 0 [Gap; Data x58; Data x3e]
           (mkWorld [Data x2e; Gap; Data x58; Data x3e] [] [] [])).
  - reflexivity.
  - simpl. lia.
  - left. exists 1%nat, x58, [Data x3e].
    split; [simpl; lia|]. split; [discriminate | reflexivity].
  - reflexivity.
Defined.

(** X7. In wipe mode the script writes [X:/] and reads one status byte.
    Only 0x40 lets it go on (to the ready prompt and the upload of the
    files); 0x58 and every other byte make it print the failure and leave
    with [exit(1)] with nothing else written; and when the read times out
    the script dies on the [IndexError] of indexing the empty result. *)
Theorem wipe_outcomes (cfg : config) (files : list (string * list byte))
  (w : world) :
  NO_REFORMAT cfg = true ->
  upload cfg files w =
    let asked := fun got msgs s =>
      mkWorld s (trace w ++ [Tx [x58; x3a; x2f; x0a]; Rx 1 got])
              (out w ++ InfoRemovingAll :: msgs) (disk w) in
    match rx w with
    | Data b :: s =>
        if Byte.eqb b x40 then
          (wait_ready ;;; print InfoUploading ;;; upload_files cfg files)
            (asked [b] [] s)
        else
          (Exit 1,
           asked [b]
             [if Byte.eqb b x58 then ErrDeleteFailed
              else ErrUnexpectedResult b;
              InfoNotReformatted] s)
    | Gap :: s => (Raise IndexError, asked [] [] s)
    | [] => (Raise IndexError, asked [] [] [])
    end.
Proof.
  intros Hmode. destruct w as [s tr o d]. cbn [rx trace out disk].
  unfold upload, reformat. rewrite Hmode.
  unfold bind at 1 2 3. unfold print at 1, device_write at 1, log_event.
  cbn [rx trace out disk].
  unfold bind at 1. unfold device_read at 1. cbn [rx trace out disk].
  destruct s as [|[b|] s].
  - cbn [take_rx index0]. unfold bind, raise.
    rewrite <- app_assoc. reflexivity.
  - rewrite take_rx_one_data. cbn [index0].
    unfold bind at 1. unfold ret at 1. rewrite <- app_assoc. cbn [app].
    destruct (Byte.eqb b x58) eqn:E58.
    + apply Byte.byte_dec_bl in E58. subst b.
      change (Byte.eqb x58 x40) with false. cbv iota.
      unfold bind, print, ret, exit. cbn [negb rx trace out disk].
      rewrite <- !app_assoc. reflexivity.
    + destruct (Byte.eqb b x40); cbn [negb].
      * unfold ret at 1. cbn [negb]. cbv iota. reflexivity.
      * unfold bind, print, ret, exit. cbn [negb rx trace out disk].
        rewrite <- !app_assoc. reflexivity.
  - cbn [take_rx Z.leb Z.compare index0]. unfold bind, raise.
    rewrite <- app_assoc. reflexivity.
Qed.

Lemma wipe_outcomes_witness :
  upload (mkConfig false "fs" true 3 3) [("fs/a"%string, [x41])]
    (mkWorld [Data x58; Data x3e] [] [] [])
  = (Exit 1,
     mkWorld [Data x3e] [Tx [x58; x3a; x2f; x0a]; Rx 1 [x58]]
       [InfoRemovingAll; ErrDeleteFailed; InfoNotReformatted] []).
Proof.
  exact (@wipe_outcomes (mkConfig false "fs" true 3 3) [("fs/a"%string, [x41])]
           (mkWorld [Data x58; Data x3e] [] [] []) eq_refl).
Defined.

(** X8. When the device answers a block with a status byte that is none of
    0x21, 0x58 and 0x40 (and an offset), the script prints the byte and
    leaves with [exit(1)]: the block has been written once, it is not
    written again, and nothing is written after it. *)
Theorem unexpected_block_status_is_fatal (cfg : config) (dev_path : string)
  (content : list byte) (st : byte) (off : word) (s : list item) (w : world) :
  content <> [] ->
  st <> x21 -> st <> x58 -> st <> x40 ->
  rx w = ack st off ++ s ->
  send_blocks cfg dev_path content w =
    (Exit 1,
     mkWorld s
       (trace w ++ frame (firstn 256 content) ++ ack_reads st off)
       (out w ++ [ErrUnexpectedBlock st])
       (disk w)).
Proof.
  intros Hne H21 H58 H40 Hrx.
  destruct w as [s0 tr o d]. cbn [rx trace out disk] in *. subst s0.
  rewrite send_blocks_eq.
  assert (H0 : (length (firstn 256 content) =? 0)%nat = false).
  { apply Nat.eqb_neq. destruct content; [congruence|].
    cbn [firstn length]. lia. }
  rewrite H0. unfold bind. rewrite send_block_ack.
  destruct (Byte.eqb st x21) eqn:E1;
    [apply Byte.byte_dec_bl in E1; congruence|].
  destruct (Byte.eqb st x58) eqn:E2;
    [apply Byte.byte_dec_bl in E2; congruence|].
  destruct (Byte.eqb st x40) eqn:E3;
    [apply Byte.byte_dec_bl in E3; congruence|].
  reflexivity.
Qed.

Lemma unexpected_block_status_is_fatal_witness :
  send_blocks (mkConfig false "fs" false 3 3) "/a" [x41]
    (mkWorld (ack x3e (x00, x00, x00, x00) ++ [Data x3e]) [] [] [])
  = (Exit 1,
     mkWorld [Data x3e]
       ([] ++ frame (firstn 256 [x41]) ++ ack_reads x3e (x00, x00, x00, x00))
       ([] ++ [ErrUnexpectedBlock x3e]) []).
Proof.
  apply (@unexpected_block_status_is_fatal (mkConfig false "fs" false 3 3)
           "/a" [x41] x3e (x00, x00, x00, x00) [Data x3e]
           (mkWorld (ack x3e (x00, x00, x00, x00) ++ [Data x3e]) [] [] []));
    try discriminate.
  reflexivity.
Defined.

(** ** What the checksum detects *)

Lemma sum_bytes_mid (pre post : list byte) (b : byte) :
  sum_bytes (pre ++ b :: post) = sum_bytes pre + byte_val b + sum_bytes post.
Proof.
  rewrite sum_bytes_app, sum_bytes_cons. lia.
Qed.

Lemma checksum_eq_iff (args args' : list (list byte)) :
  calculate_checksum args = calculate_checksum args'
  <-> sum_bytes (concat args) mod 256 = sum_bytes (concat args') mod 256.
Proof.
  rewrite !calculate_checksum_formula.
  pose proof (Z.mod_pos_bound (sum_bytes (concat args)) 256) as H1.
  pose proof (Z.mod_pos_bound (sum_bytes (concat args')) 256) as H2.
  set (a := sum_bytes (concat args) mod 256) in *.
  set (b := sum_bytes (concat args') mod 256) in *.
  assert (Ha : 0 <= a < 256) by (apply H1; lia).
  assert (Hb : 0 <= b < 256) by (apply H2; lia).
  clearbody a b. clear H1 H2.
  split.
  - intros H.
    destruct (Z.eq_dec a 0) as [->|Hna]; destruct (Z.eq_dec b 0) as [->|Hnb];
      try reflexivity.
    + rewrite (Z.mod_small (256 - b)) in H by lia.
      change ((256 - 0) mod 256) with 0 in H. lia.
    + rewrite (Z.mod_small (256 - a)) in H by lia.
      change ((256 - 0) mod 256) with 0 in H. lia.
    + rewrite !Z.mod_small in H by lia. lia.
  - intros ->. reflexivity.
Qed.



(** X10. A change of one byte is always detected: when exactly one byte of
    the ranges a checksum was computed over is replaced by a different
    byte, the comparison of line 639 against that checksum reports a
    mismatch. *)
Theorem one_changed_byte_is_detected (ranges : list (list byte))
  (pre post : list byte) (b b' : byte) :
  b <> b' ->
  checksum_mismatch (ranges ++ [pre ++ b' :: post])
    (calculate_checksum (ranges ++ [pre ++ b :: post])) = true.
Proof.
  intros Hne. unfold checksum_mismatch.
  apply negb_true_iff, Z.eqb_neq. intros H.
  apply checksum_eq_iff in H.
  rewrite !concat_app in H. cbn [concat] in H. rewrite !app_nil_r in H.
  rewrite !sum_bytes_app, !sum_bytes_cons in H.
  pose proof (byte_val_range b) as Hb. pose proof (byte_val_range b') as Hb'.
  assert (Hv : byte_val b = byte_val b').
  { set (k := sum_bytes (concat ranges) + sum_bytes pre + sum_bytes post) in *.
    match type of H with
    | ?L mod 256 = ?R mod 256 =>
        replace L with (byte_val b' + k) in H by (unfold k; lia);
        replace R with (byte_val b + k) in H by (unfold k; lia)
    end.
    clearbody k.
    assert (Hd : (byte_val b' - byte_val b) mod 256 = 0).
    { rewrite Zminus_mod.
      replace (byte_val b') with ((byte_val b' + k) - k) at 1 by lia.
      replace (byte_val b) with ((byte_val b + k) - k) at 1 by lia.
      rewrite (Zminus_mod (byte_val b' + k) k), (Zminus_mod (byte_val b + k) k).
      rewrite H. rewrite Z.sub_diag. reflexivity. }
    apply Z.mod_divide in Hd; [|lia]. destruct Hd as [q Hq]. lia. }
  apply Hne. rewrite <- (byte_of_Z_of_val b), <- (byte_of_Z_of_val b'), Hv.
  reflexivity.
Qed.

Lemma one_changed_byte_is_detected_witness :
  checksum_mismatch ([[x02; x00; x00; x00]] ++ [[x41] ++ x43 :: []])
    (calculate_checksum ([[x02; x00; x00; x00]] ++ [[x41] ++ x42 :: []]))
  = true.
Proof.
  apply (@one_changed_byte_is_detected [[x02; x00; x00; x00]] [x41] [] x42 x43).
  discriminate.
Defined.

Lemma sum_bytes_perm (l l' : list byte) :
  Permutation l l' -> sum_bytes l = sum_bytes l'.
Proof.
  induction 1 as [|x l l' _ IH|x y l|l l' l'' _ IH1 _ IH2].
  - reflexivity.
  - rewrite !sum_bytes_cons, IH. reflexivity.
  - rewrite !sum_bytes_cons. lia.
  - rewrite IH1. exact IH2.
Qed.

(** X11. The checksum does not see the order of the bytes: when the bytes
    received are a rearrangement of the bytes the checksum was computed
    over, the comparison of line 639 reports no mismatch. *)
Theorem reordered_bytes_pass (ranges ranges' : list (list byte)) :
  Permutation (concat ranges) (concat ranges') ->
  checksum_mismatch ranges' (calculate_checksum ranges) = false.
Proof.
  intros Hp. unfold checksum_mismatch.
  apply negb_false_iff, Z.eqb_eq. apply checksum_eq_iff.
  rewrite (sum_bytes_perm Hp). reflexivity.
Qed.

Lemma reordered_bytes_pass_witness :
  checksum_mismatch [[x02; x00; x00; x00]; [x42; x41]]
    (calculate_checksum [[x02; x00; x00; x00]; [x41; x42]]) = false.
Proof.
  apply (@reordered_bytes_pass [[x02; x00; x00; x00]; [x41; x42]]
           [[x02; x00; x00; x00]; [x42; x41]]).
  cbn [concat app]. repeat apply perm_skip. apply perm_swap.
Defined.

(** ** Whole listings *)

(** One turn of the listing loop on an entry whose NUL arrives. *)
Lemma read_listing_step (fs_listing : dict) (e : entry) (rest : list item)
  (tr : list event) (o : list msg) (d : list (string * list byte)) :
  forallb is_ascii (snd e) = true ->
  ~ In x00 (snd e) ->
  read_listing fs_listing (mkWorld (entry_wire e ++ rest) tr o d) =
    let w' := mkWorld rest
                (tr ++ [Rx 4 (word_bytes (fst e)); RxUntil x00 (snd e ++ [x00])])
                o d in
    if (entry_size e =? 0xFFFFFFFF) && (length (snd e) =? 0)%nat
    then (Done fs_listing, w')
    else read_listing (record fs_listing e) w'.
Proof.
  destruct e as [[[[b0 b1] b2] b3] name]. cbn [fst snd].
  intros Hascii Hnul.
  rewrite read_listing_eq.
  unfold entry_wire. cbn [fst snd word_bytes]. cbn [map app].
  unfold bind at 1. rewrite read_32le_data.
  unfold bind at 1. unfold device_read_until. cbn [rx trace out disk].
  rewrite take_until_data by exact Hnul.
  unfold bind at 1. unfold decode_ascii.
  rewrite removelast_last, Hascii. unfold ret at 1.
  cbn [fst]. rewrite string_length_of_bytes.
  rewrite <- app_assoc. cbn [app]. cbv zeta.
  unfold record, entry_size, entry_path. cbn [fst snd word_bytes].
  destruct ((unpack_le [b0; b1; b2; b3] =? 4294967295)
            && (length name =? 0)%nat); reflexivity.
Qed.

Lemma read_listing_terminator (fs_listing : dict) (rest : list item)
  (tr : list event) (o : list msg) (d : list (string * list byte)) :
  read_listing fs_listing (mkWorld (terminator ++ rest) tr o d)
  = (Done fs_listing,
     mkWorld rest (tr ++ [Rx 4 [xff; xff; xff; xff]; RxUntil x00 [x00]]) o d).
Proof.
  change (terminator ++ rest)
    with (entry_wire ((xff, xff, xff, xff), []) ++ rest).
  rewrite read_listing_step; [reflexivity | reflexivity | intros []].
Qed.

Lemma read_listing_entries (entries : list entry) :
  Forall entry_ok entries ->
  forall (fs_listing : dict) (rest : list item) (tr : list event)
         (o : list msg) (d : list (string * list byte)),
  exists tr',
    read_listing fs_listing
      (mkWorld (flat_map entry_wire entries ++ terminator ++ rest) tr o d)
    = (Done (fold_left record entries fs_listing), mkWorld rest tr' o d).
Proof.
  induction 1 as [|e entries (Hascii & Hnul & Hnot) _ IH];
    intros fs_listing rest tr o d.
  - cbn [flat_map app fold_left]. rewrite read_listing_terminator.
    eexists. reflexivity.
  - cbn [flat_map fold_left]. rewrite <- app_assoc.
    rewrite read_listing_step by assumption. cbv zeta.
    assert (Hgo : (entry_size e =? 0xFFFFFFFF) && (length (snd e) =? 0)%nat
                  = false).
    { apply andb_false_iff. destruct Hnot as [Hs|Hn].
      - left. apply Z.eqb_neq. exact Hs.
      - right. apply Nat.eqb_neq. destruct (snd e); [congruence|discriminate]. }
    rewrite Hgo. apply IH.
Qed.

Lemma dict_set_fresh (d : dict) (k : string) (v : Z) :
  ~ In k (map fst d) -> dict_set d k v = d ++ [(k, v)].
Proof.
  induction d as [|[k0 v0] d IH]; intros Hn; [reflexivity|].
  cbn [dict_set app]. cbn [map fst In] in Hn.
  destruct (String.eqb_spec k k0) as [->|Hne].
  - exfalso. apply Hn. left. reflexivity.
  - rewrite IH; [reflexivity|]. intros H. apply Hn. right. exact H.
Qed.

Lemma record_distinct (entries : list entry) (d : dict) :
  NoDup (map fst d ++ map entry_path entries) ->
  fold_left record entries d
  = d ++ map (fun e => (entry_path e, entry_size e)) entries.
Proof.
  revert d. induction entries as [|e entries IH]; intros d Hnd.
  - cbn. rewrite app_nil_r. reflexivity.
  - cbn [fold_left map]. unfold record at 2.
    assert (Hfresh : ~ In (entry_path e) (map fst d)).
    { cbn [map] in Hnd. apply NoDup_remove_2 in Hnd.
      intros H. apply Hnd. apply in_or_app. left. exact H. }
    rewrite dict_set_fresh by exact Hfresh.
    rewrite IH.
    + rewrite <- app_assoc. reflexivity.
    + rewrite map_app. cbn [map fst app]. rewrite <- app_assoc. exact Hnd.
Qed.

(** X12. The device sends entries with pairwise different paths (each
    ASCII, without NUL, and none of them the terminator), then the
    terminator. The listing loop ends normally, having read exactly the
    entries and the terminator, and the listing it returns holds the
    entries as they were received: the same paths with the same sizes, in
    the same order. *)
Theorem listing_keeps_order (entries : list entry) (rest : list item)
  (w : world) :
  Forall entry_ok entries ->
  NoDup (map entry_path entries) ->
  rx w = flat_map entry_wire entries ++ terminator ++ rest ->
  fst (read_listing [] w)
  = Done (map (fun e => (entry_path e, entry_size e)) entries)
  /\ rx (snd (read_listing [] w)) = rest.
Proof.
  intros Hok Hnd Hrx. destruct w as [s tr o d]. cbn [rx] in Hrx. subst s.
  destruct (read_listing_entries Hok [] rest tr o d) as [tr' E].
  rewrite E. cbn [fst snd rx].
  rewrite record_distinct by exact Hnd. split; reflexivity.
Qed.

Lemma listing_keeps_order_witness :
  fst (read_listing []
         (mkWorld (flat_map entry_wire
                     [((x05, x00, x00, x00), [x2f; x62]);
                      ((x01, x00, x00, x00), [x2f; x61])]
                   ++ terminator ++ [Data x3e]) [] [] []))
  = Done (map (fun e => (entry_path e, entry_size e))
            [((x05, x00, x00, x00), [x2f; x62]);
             ((x01, x00, x00, x00), [x2f; x61])])
  /\ rx (snd (read_listing []
                (mkWorld (flat_map entry_wire
                            [((x05, x00, x00, x00), [x2f; x62]);
                             ((x01, x00, x00, x00), [x2f; x61])]
                          ++ terminator ++ [Data x3e]) [] [] [])))
     = [Data x3e].
Proof.
  apply (@listing_keeps_order
           [((x05, x00, x00, x00), [x2f; x62]);
            ((x01, x00, x00, x00), [x2f; x61])] [Data x3e]).
  - repeat constructor; cbn; try discriminate;
      intros H; repeat (destruct H as [H|H]; [discriminate H|]); exact H.
  - repeat constructor; cbn; intros H;
      repeat (destruct H as [H|H]; [discriminate H|]); exact H.
  - reflexivity.
Defined.

Lemma dict_get_set (d : dict) (k k' : string) (v : Z) :
  dict_get (dict_set d k v) k'
  = if String.eqb k' k then Some v else dict_get d k'.
Proof.
  induction d as [|[k0 v0] d IH]; cbn [dict_set dict_get].
  - destruct (String.eqb k' k); reflexivity.
  - destruct (String.eqb_spec k k0) as [->|Hne]; cbn [dict_get].
    + destruct (String.eqb k' k0); reflexivity.
    + rewrite IH. destruct (String.eqb_spec k' k0) as [->|Hne'].
      * destruct (String.eqb_spec k0 k) as [E|_]; [congruence|reflexivity].
      * reflexivity.
Qed.

Lemma dict_set_nodup (d : dict) (k : string) (v : Z) :
  NoDup (map fst d) -> NoDup (map fst (dict_set d k v)).
Proof.
  induction d as [|[k0 v0] d IH]; intros Hnd.
  - cbn. constructor; [intros []|constructor].
  - cbn [dict_set]. cbn [map fst] in Hnd. inversion Hnd as [|x l Hnin Hnd']; subst.
    destruct (String.eqb_spec k k0) as [->|Hne]; cbn [map fst].
    + constructor; assumption.
    + constructor; [|apply IH; exact Hnd'].
      intros Hin. destruct (dict_set_keys _ _ _ _ Hin) as [E|Hin'].
      * congruence.
      * apply Hnin. exact Hin'.
Qed.

Lemma find_app (A : Type) (f : A -> bool) (l1 l2 : list A) :
  find f (l1 ++ l2)
  = match find f l1 with Some x => Some x | None => find f l2 end.
Proof.
  induction l1 as [|x l1 IH]; [reflexivity|].
  cbn [app find]. destruct (f x); [reflexivity|exact IH].
Qed.

Lemma record_lookup (entries : list entry) (d : dict) (k : string) :
  dict_get (fold_left record entries d) k
  = match last_size entries k with
    | Some v => Some v
    | None => dict_get d k
    end.
Proof.
  revert d. induction entries as [|e entries IH]; intros d; [reflexivity|].
  cbn [fold_left]. rewrite IH.
  unfold last_size. cbn [rev]. rewrite find_app.
  destruct (find (fun e0 => String.eqb k (entry_path e0)) (rev entries));
    [reflexivity|].
  cbn [find option_map]. unfold record. rewrite dict_get_set.
  destruct (String.eqb k (entry_path e)); reflexivity.
Qed.

Lemma record_nodup (entries : list entry) (d : dict) :
  NoDup (map fst d) -> NoDup (map fst (fold_left record entries d)).
Proof.
  revert d. induction entries as [|e entries IH]; intros d Hnd; [exact Hnd|].
  cbn [fold_left]. apply IH. apply dict_set_nodup. exact Hnd.
Qed.

(** X13. Whatever entries the device sends before the terminator (each
    path ASCII and without NUL), the listing returned holds every path
    once, and the size found for a path is the size of the last entry sent
    with that path: an entry sent again replaces the size recorded
    before. *)
Theorem listing_keeps_last_size (entries : list entry) (rest : list item)
  (w : world) :
  Forall entry_ok entries ->
  rx w = flat_map entry_wire entries ++ terminator ++ rest ->
  exists fs_listing,
    fst (read_listing [] w) = Done fs_listing
    /\ NoDup (map fst fs_listing)
    /\ forall k, dict_get fs_listing k = last_size entries k.
Proof.
  intros Hok Hrx. destruct w as [s tr o d]. cbn [rx] in Hrx. subst s.
  destruct (read_listing_entries Hok [] rest tr o d) as [tr' E].
  exists (fold_left record entries []). rewrite E. cbn [fst].
  split; [reflexivity|]. split.
  - apply record_nodup. constructor.
  - intros k. rewrite record_lookup.
    destruct (last_size entries k); reflexivity.
Qed.

Lemma listing_keeps_last_size_witness :
  exists fs_listing,
    fst (read_listing []
           (mkWorld (flat_map entry_wire
                       [((x05, x00, x00, x00), [x2f; x61]);
                        ((x01, x00, x00, x00), [x2f; x61])]
                     ++ terminator ++ [Data x3e]) [] [] []))
    = Done fs_listing
    /\ NoDup (map fst fs_listing)
    /\ forall k, dict_get fs_listing k
                 = last_size [((x05, x00, x00, x00), [x2f; x61]);
                              ((x01, x00, x00, x00), [x2f; x61])] k.
Proof.
  apply (@listing_keeps_last_size
           [((x05, x00, x00, x00), [x2f; x61]);
            ((x01, x00, x00, x00), [x2f; x61])] [Data x3e]).
  - repeat constructor; cbn; try discriminate;
      intros H; repeat (destruct H as [H|H]; [discriminate H|]); exact H.
  - reflexivity.
Defined.

(** ** Paths that do not arrive whole *)




(** X15. A path with a byte of value 128 or more makes the listing die:
    [decode('ascii')] raises [UnicodeDecodeError], which nothing catches, so
    the entries read before it are lost and neither the rest of the listing
    nor the ready prompt is read. *)
Theorem non_ascii_path_kills_listing (fs_listing : dict) (size : word)
  (name : list byte) (rest : list item) (w : world) :
  forallb is_ascii name = false ->
  ~ In x00 name ->
  rx w = map Data (word_bytes size ++ name ++ [x00]) ++ rest ->
  read_listing fs_listing w =
    (Raise UnicodeDecodeError,
     mkWorld rest
       (trace w ++ [Rx 4 (word_bytes size); RxUntil x00 (name ++ [x00])])
       (out w) (disk w)).
Proof.
  intros Hascii Hnul Hrx.
  destruct w as [s tr o d]. cbn [rx trace out disk] in *. subst s.
  destruct size as [[[b0 b1] b2] b3]. cbn [word_bytes] in *.
  rewrite read_listing_eq. cbn [map app].
  unfold bind at 1. rewrite read_32le_data.
  unfold bind at 1. unfold device_read_until. cbn [rx trace out disk].
  rewrite take_until_data by exact Hnul.
  unfold bind at 1. unfold decode_ascii.
  rewrite removelast_last, Hascii. unfold raise.
  rewrite <- app_assoc. reflexivity.
Qed.

Lemma non_ascii_path_kills_listing_witness :
  read_listing [("/a"%string, 5)]
    (mkWorld (map Data ([x01; x00; x00; x00] ++ [x2f; xe9] ++ [x00])
              ++ terminator) [] [] [])
  = (Raise UnicodeDecodeError,
     mkWorld terminator
       ([] ++ [Rx 4 [x01; x00; x00; x00]; RxUntil x00 ([x2f; xe9] ++ [x00])])
       [] []).
Proof.
  apply (@non_ascii_path_kills_listing [("/a"%string, 5)] (x01, x00, x00, x00)
           [x2f; xe9] terminator
           (mkWorld (map Data ([x01; x00; x00; x00] ++ [x2f; xe9] ++ [x00])
                     ++ terminator) [] [] [])).
  - reflexivity.
  - cbn. intros H. repeat (destruct H as [H|H]; [discriminate H|]). exact H.
  - reflexivity.
Defined.

(** ** Whole dumps *)








(** * gtfs.py: merging stopping patterns *)

Module MergeFacts.
Import Merge.

Lemma mem_In (x : string) (l : pattern) : mem x l = true <-> In x l.
Proof.
  unfold mem. rewrite existsb_exists. split.
  - intros (y & Hin & E). apply String.eqb_eq in E. subst. exact Hin.
  - intros H. exists x. split; [exact H | apply String.eqb_refl].
Qed.

Lemma mem_not_In (x : string) (l : pattern) : mem x l = false <-> ~ In x l.
Proof.
  rewrite <- mem_In. destruct (mem x l); split; congruence.
Qed.

Lemma filter_all (f : string -> bool) (l : pattern) :
  (forall x, In x l -> f x = true) -> filter f l = l.
Proof.
  induction l as [|y l IH]; intros H; [reflexivity|].
  cbn [filter]. rewrite (H y (or_introl eq_refl)).
  rewrite IH; [reflexivity|]. intros x Hx. apply H. right. exact Hx.
Qed.

Lemma filter_none (f : string -> bool) (l : pattern) :
  (forall x, In x l -> f x = false) -> filter f l = [].
Proof.
  induction l as [|y l IH]; intros H; [reflexivity|].
  cbn [filter]. rewrite (H y (or_introl eq_refl)).
  apply IH. intros x Hx. apply H. right. exact Hx.
Qed.

(** X18. Two patterns without a stop in common are not merged:
    [merge_two_patterns] returns [None]. In particular this is the answer
    when either pattern is empty. *)
Theorem separate_patterns_not_merged (a b : pattern) :
  (forall x, In x a -> ~ In x b) ->
  merge_two_patterns a b = NotMerged.
Proof.
  intros H. unfold merge_two_patterns.
  rewrite filter_none; [reflexivity|].
  intros x Hx. apply mem_not_In. apply H. exact Hx.
Qed.

Lemma separate_patterns_not_merged_witness :
  merge_two_patterns ["s1"%string; "s2"%string] ["s3"%string] = NotMerged.
Proof.
  apply (@separate_patterns_not_merged ["s1"%string; "s2"%string]
           ["s3"%string]).
  intros x [<-|[<-|[]]] [H|[]]; discriminate H.
Defined.

(** *** Indices in lists without repetition *)

Lemma index_app_l (x : string) (l1 l2 : pattern) :
  In x l1 -> index x (l1 ++ l2) = index x l1.
Proof.
  induction l1 as [|y l1 IH]; intros Hin; [destruct Hin|].
  cbn [app index]. destruct (String.eqb_spec x y) as [_|Hne]; [reflexivity|].
  rewrite IH; [reflexivity|]. destruct Hin as [E|Hin]; [congruence|exact Hin].
Qed.

Lemma index_app_r (x : string) (l1 l2 : pattern) :
  ~ In x l1 -> index x (l1 ++ l2) = (length l1 + index x l2)%nat.
Proof.
  induction l1 as [|y l1 IH]; intros Hn; [reflexivity|].
  cbn [app index length]. destruct (String.eqb_spec x y) as [E|_].
  - exfalso. apply Hn. left. symmetry. exact E.
  - rewrite IH; [reflexivity|]. intros H. apply Hn. right. exact H.
Qed.

Lemma map_index_shift (pre c post : pattern) :
  (forall x, In x c -> ~ In x pre) ->
  map (fun e => index e (pre ++ c ++ post)) c
  = map (fun e => (length pre + index e (c ++ post))%nat) c.
Proof.
  intros H. apply map_ext_in. intros e He.
  apply index_app_r. apply H. exact He.
Qed.

Lemma map_index_self (c post : pattern) :
  NoDup c ->
  map (fun e => index e (c ++ post)) c = seq 0 (length c).
Proof.
  intros Hnd. induction Hnd as [|y c Hnin Hnd IH]; [reflexivity|].
  cbn [map app index length seq]. rewrite String.eqb_refl. f_equal.
  rewrite <- seq_shift, <- IH. rewrite map_map.
  apply map_ext_in. intros e He.
  destruct (String.eqb_spec e y) as [->|_]; [contradiction|reflexivity].
Qed.

Lemma list_min_seq (s n : nat) : list_min (seq s (S n)) = s.
Proof.
  unfold list_min. cbn [seq].
  assert (H : forall m k a, (a <= k)%nat -> fold_left Nat.min (seq k m) a = a).
  { induction m as [|m IH]; intros k a Ha; [reflexivity|].
    cbn [seq fold_left]. rewrite Nat.min_l by exact Ha. apply IH. lia. }
  apply H. lia.
Qed.

Lemma list_max_seq (s n : nat) : list_max (seq s (S n)) = (s + n)%nat.
Proof.
  revert s. induction n as [|n IH]; intros s.
  - cbn. lia.
  - change (seq s (S (S n))) with (s :: seq (S s) (S n)).
    cbn [list_max fold_right]. change (fold_right Nat.max 0%nat (seq (S s) (S n)))
      with (list_max (seq (S s) (S n))).
    rewrite IH. lia.
Qed.

Lemma map_add_seq (k s n : nat) :
  map (fun i => (k + i)%nat) (seq s n) = seq (k + s) n.
Proof.
  revert s. induction n as [|n IH]; intros s; [reflexivity|].
  cbn [seq map]. rewrite IH. f_equal. f_equal. lia.
Qed.

Lemma merge_overlap_same (c : pattern) : merge_overlap c c = Some c.
Proof.
  induction c as [|y c IH]; [reflexivity|].
  cbn [merge_overlap]. rewrite String.eqb_refl.
  change ((fix over_b (b : pattern) : option pattern :=
             match c, b with
             | [], _ => Some []
             | _, [] => Some []
             | a_i :: a', b_j :: b' =>
                 if String.eqb a_i b_j then
                   option_map (cons a_i) (merge_overlap a' b')
                 else if match a' with
                         | next :: _ => String.eqb next b_j
                         | [] => false
                         end then
                   option_map (cons a_i) (merge_overlap a' b)
                 else if match b' with
                         | next :: _ => String.eqb next a_i
                         | [] => false
                         end then
                   option_map (cons b_j) (over_b b')
                 else None
             end) c) with (merge_overlap c c).
  rewrite IH. reflexivity.
Qed.

Lemma merge_overlap_eq (a b : pattern) :
  merge_overlap a b =
    match a, b with
    | [], _ => Some []
    | _, [] => Some []
    | a_i :: a', b_j :: b' =>
        if String.eqb a_i b_j then
          option_map (cons a_i) (merge_overlap a' b')
        else if match a' with
                | next :: _ => String.eqb next b_j
                | [] => false
                end then
          option_map (cons a_i) (merge_overlap a' b)
        else if match b' with
                | next :: _ => String.eqb next a_i
                | [] => false
                end then
          option_map (cons b_j) (merge_overlap a b')
        else None
    end.
Proof.
  destruct a as [|a_i a']; destruct b as [|b_j b']; reflexivity.
Qed.

Lemma slice_middle (pre c post : pattern) :
  slice (pre ++ c ++ post) (length pre) (length pre + length c) = c.
Proof.
  unfold slice. rewrite app_assoc.
  rewrite firstn_app.
  replace (length pre + length c - length (pre ++ c))%nat with 0%nat
    by (rewrite length_app; lia).
  rewrite firstn_O, app_nil_r.
  rewrite firstn_all2 by (rewrite length_app; lia).
  rewrite skipn_app, skipn_all, Nat.sub_diag. reflexivity.
Qed.

Lemma common_of_chain (x c y : pattern) :
  NoDup (x ++ c ++ y) ->
  filter (fun e => mem e (c ++ y)) (x ++ c) = c
  /\ filter (fun e => mem e (x ++ c)) (c ++ y) = c.
Proof.
  intros Hnd.
  assert (Hxc : forall e, In e x -> ~ In e (c ++ y)).
  { intros e Hx Hcy. revert Hnd Hx Hcy. clear.
    induction x as [|z x IH]; intros Hnd Hx Hcy; [destruct Hx|].
    cbn [app] in Hnd. inversion Hnd as [|? ? Hnin Hnd']; subst.
    destruct Hx as [->|Hx].
    - apply Hnin. apply in_or_app. right. exact Hcy.
    - apply (IH Hnd' Hx Hcy). }
  assert (Hcy : forall e, In e y -> ~ In e (x ++ c)).
  { intros e Hy Hin. apply in_app_or in Hin. destruct Hin as [Hin|Hin].
    - apply (Hxc e Hin). apply in_or_app. right. exact Hy.
    - apply NoDup_app_remove_l in Hnd.
      revert Hnd Hin Hy. clear. induction c as [|z c IH]; intros Hnd Hin Hy;
        [destruct Hin|].
      cbn [app] in Hnd. inversion Hnd as [|? ? Hnin Hnd']; subst.
      destruct Hin as [->|Hin].
      + apply Hnin. apply in_or_app. right. exact Hy.
      + apply (IH Hnd' Hin Hy). }
  split.
  - rewrite filter_app. rewrite filter_none, filter_all; [reflexivity| |].
    + intros e He. apply mem_In. apply in_or_app. left. exact He.
    + intros e He. apply mem_not_In. apply Hxc. exact He.
  - rewrite filter_app. rewrite filter_all, filter_none.
    + apply app_nil_r.
    + intros e He. apply mem_not_In. apply Hcy. exact He.
    + intros e He. apply mem_In. apply in_or_app. right. exact He.
Qed.

Lemma chain_forward (x c y : pattern) :
  NoDup (x ++ c ++ y) -> c <> [] ->
  merge_two_patterns (x ++ c) (c ++ y) = Merged (x ++ c ++ y).
Proof.
  intros Hnd Hne.
  destruct (common_of_chain x c y Hnd) as [Hcom _].
  assert (Hndc : NoDup c).
  { apply NoDup_app_remove_l in Hnd. apply NoDup_app_remove_r in Hnd.
    exact Hnd. }
  assert (Hcx : forall e, In e c -> ~ In e x).
  { intros e Hc Hx. revert Hnd Hx Hc. clear.
    induction x as [|z x IH]; intros Hnd Hx Hc; [destruct Hx|].
    cbn [app] in Hnd. inversion Hnd as [|? ? Hnin Hnd']; subst.
    destruct Hx as [->|Hx].
    - apply Hnin. apply in_or_app. right. apply in_or_app. left. exact Hc.
    - apply (IH Hnd' Hx Hc). }
  destruct c as [|c0 c']; [congruence|].
  set (c := c0 :: c') in *.
  assert (Hlen : length c = S (length c')) by reflexivity.
  unfold merge_two_patterns. rewrite Hcom.
  assert (Hl0 : (length c =? 0)%nat = false) by reflexivity.
  rewrite Hl0.
  assert (Ia : map (fun elem => index elem (x ++ c)) c
               = seq (length x) (length c)).
  { pose proof (@map_index_shift x c [] Hcx) as H.
    rewrite !app_nil_r in H. rewrite H.
    rewrite <- (map_map (fun e => index e c) (fun i => (length x + i)%nat)).
    pose proof (@map_index_self c [] Hndc) as H2. rewrite app_nil_r in H2.
    rewrite H2, map_add_seq. f_equal. lia. }
  assert (Ib : map (fun elem => index elem (c ++ y)) c = seq 0 (length c)).
  { apply map_index_self. exact Hndc. }
  rewrite Ia, Ib, Hlen.
  rewrite !list_min_seq, !list_max_seq.
  cbn [Nat.eqb negb andb]. rewrite andb_false_r.
  cbv iota beta.
  replace (length x + length c' + 1)%nat with (length x + length c)%nat by lia.
  replace (0 + length c' + 1)%nat with (0 + length c)%nat by lia.
  pose proof (slice_middle x c []) as Sa. rewrite app_nil_r in Sa. rewrite Sa.
  pose proof (slice_middle [] c y) as Sb. cbn [app length] in Sb. rewrite Sb.
  rewrite merge_overlap_same.
  rewrite firstn_app, Nat.sub_diag, firstn_O, app_nil_r, firstn_all.
  f_equal. f_equal. f_equal.
  rewrite length_app.
  destruct y as [|y0 y'].
  - cbn [length]. rewrite Nat.add_0_r.
    replace (0 + length c' =? length c - 1)%nat with true
      by (symmetry; apply Nat.eqb_eq; lia).
    cbn [negb]. rewrite skipn_all2; [reflexivity|].
    rewrite length_app. lia.
  - replace (0 + length c' =? length c + length (y0 :: y') - 1)%nat with false
      by (symmetry; apply Nat.eqb_neq; cbn [length]; lia).
    cbn [negb].
    replace (0 + length c)%nat with (length c) by lia.
    rewrite skipn_app, skipn_all, Nat.sub_diag. reflexivity.
Qed.

Lemma chain_backward (x c y : pattern) :
  NoDup (x ++ c ++ y) -> c <> [] ->
  merge_two_patterns (c ++ y) (x ++ c) = Merged (x ++ c ++ y).
Proof.
  intros Hnd Hne.
  destruct (common_of_chain x c y Hnd) as [_ Hcom].
  assert (Hndc : NoDup c).
  { apply NoDup_app_remove_l in Hnd. apply NoDup_app_remove_r in Hnd.
    exact Hnd. }
  assert (Hcx : forall e, In e c -> ~ In e x).
  { intros e Hc Hx. revert Hnd Hx Hc. clear.
    induction x as [|z x IH]; intros Hnd Hx Hc; [destruct Hx|].
    cbn [app] in Hnd. inversion Hnd as [|? ? Hnin Hnd']; subst.
    destruct Hx as [->|Hx].
    - apply Hnin. apply in_or_app. right. apply in_or_app. left. exact Hc.
    - apply (IH Hnd' Hx Hc). }
  destruct c as [|c0 c']; [congruence|].
  set (c := c0 :: c') in *.
  assert (Hlen : length c = S (length c')) by reflexivity.
  unfold merge_two_patterns. rewrite Hcom.
  assert (Hl0 : (length c =? 0)%nat = false) by reflexivity.
  rewrite Hl0.
  assert (Ib : map (fun elem => index elem (x ++ c)) c
               = seq (length x) (length c)).
  { pose proof (@map_index_shift x c [] Hcx) as H.
    rewrite !app_nil_r in H. rewrite H.
    rewrite <- (map_map (fun e => index e c) (fun i => (length x + i)%nat)).
    pose proof (@map_index_self c [] Hndc) as H2. rewrite app_nil_r in H2.
    rewrite H2, map_add_seq. f_equal. lia. }
  assert (Ia : map (fun elem => index elem (c ++ y)) c = seq 0 (length c)).
  { apply map_index_self. exact Hndc. }
  rewrite Ia, Ib, Hlen.
  rewrite !list_min_seq, !list_max_seq.
  cbn [Nat.eqb negb andb]. cbv iota beta.
  pose proof (slice_middle x c []) as Sa. rewrite app_nil_r in Sa.
  pose proof (slice_middle [] c y) as Sb. cbn [app length] in Sb.
  destruct x as [|x0 x'].
  - cbn [length Nat.eqb negb app]. cbv iota beta.
    cbn [length app] in Sa.
    replace (0 + length c' + 1)%nat with (0 + length c)%nat by lia.
    rewrite Sb, Sa, merge_overlap_same.
    cbn [firstn app]. f_equal. f_equal.
    replace (0 + length c' =? length c - 1)%nat with true
      by (symmetry; apply Nat.eqb_eq; lia).
    cbn [negb].
    replace (0 + length c)%nat with (length c) by lia.
    rewrite skipn_app, skipn_all, Nat.sub_diag. reflexivity.
  - set (x := x0 :: x') in *.
    assert (Hx0 : (length x =? 0)%nat = false) by reflexivity.
    rewrite Hx0. cbn [negb]. cbv iota beta.
    replace (length x + length c' + 1)%nat with (length x + length c)%nat
      by lia.
    replace (0 + length c' + 1)%nat with (0 + length c)%nat by lia.
    rewrite Sa, Sb, merge_overlap_same.
    rewrite firstn_app, Nat.sub_diag, firstn_O, app_nil_r, firstn_all.
    f_equal. f_equal. f_equal.
    rewrite length_app.
    destruct y as [|y0 y'].
    + cbn [length]. rewrite Nat.add_0_r.
      replace (0 + length c' =? length c - 1)%nat with true
        by (symmetry; apply Nat.eqb_eq; lia).
      cbn [negb]. rewrite skipn_all2; [reflexivity|].
      rewrite length_app. lia.
    + replace (0 + length c' =? length c + length (y0 :: y') - 1)%nat
        with false by (symmetry; apply Nat.eqb_neq; cbn [length]; lia).
      cbn [negb].
      replace (0 + length c)%nat with (length c) by lia.
      rewrite skipn_app, skipn_all, Nat.sub_diag. reflexivity.
Qed.

(** X19. Two patterns that follow each other with an overlap are joined
    into the whole run: when one pattern ends with the stops [c] and the
    other begins with them ([c] not empty, no stop occurring twice
    anywhere), merging them gives the stops before the overlap, the
    overlap once, and the stops after it, whichever of the two is given
    first. With nothing before and nothing after, this says that merging a
    pattern with itself gives it back. *)
Theorem overlapping_patterns_are_joined (x c y : pattern) :
  NoDup (x ++ c ++ y) ->
  c <> [] ->
  merge_two_patterns (x ++ c) (c ++ y) = Merged (x ++ c ++ y)
  /\ merge_two_patterns (c ++ y) (x ++ c) = Merged (x ++ c ++ y).
Proof.
  intros Hnd Hne. split; [apply chain_forward | apply chain_backward];
    assumption.
Qed.

Lemma overlapping_patterns_are_joined_witness :
  merge_two_patterns (["s1"%string] ++ ["s2"%string; "s3"%string])
    (["s2"%string; "s3"%string] ++ ["s4"%string])
  = Merged (["s1"%string] ++ ["s2"%string; "s3"%string] ++ ["s4"%string])
  /\ merge_two_patterns (["s2"%string; "s3"%string] ++ ["s4"%string])
       (["s1"%string] ++ ["s2"%string; "s3"%string])
     = Merged (["s1"%string] ++ ["s2"%string; "s3"%string] ++ ["s4"%string]).
Proof.
  apply (@overlapping_patterns_are_joined ["s1"%string]
           ["s2"%string; "s3"%string] ["s4"%string]).
  - repeat constructor; cbn; intros H;
      repeat (destruct H as [H|H]; [discriminate H|]); exact H.
  - discriminate.
Defined.

Lemma list_min_pos (l : list nat) :
  l <> [] -> (forall n, In n l -> (1 <= n)%nat) -> (1 <= list_min l)%nat.
Proof.
  destruct l as [|n l]; [congruence|]. intros _ H. unfold list_min.
  assert (Hf : forall l' a, (1 <= a)%nat ->
                 (forall m, In m l' -> (1 <= m)%nat) ->
                 (1 <= fold_left Nat.min l' a)%nat).
  { induction l' as [|m l' IH]; intros a Ha Hall; [exact Ha|].
    cbn [fold_left]. apply IH.
    - pose proof (Hall m (or_introl eq_refl)). lia.
    - intros k Hk. apply Hall. right. exact Hk. }
  apply Hf.
  - apply H. left. reflexivity.
  - intros m Hm. apply H. right. exact Hm.
Qed.

(** X20. Two patterns that share a stop but each begin with a stop the
    other does not have (two branches that join further on) make
    [merge_two_patterns] raise [ValueError]: the code only merges when the
    shared stops begin at the start of one of the two patterns. *)
Theorem joining_branches_raise (p q : string) (a b : pattern) :
  ~ In p (q :: b) ->
  ~ In q (p :: a) ->
  (exists z, In z a /\ In z b) ->
  merge_two_patterns (p :: a) (q :: b) = RaisedValueError.
Proof.
  intros Hp Hq (z & Hza & Hzb).
  unfold merge_two_patterns.
  set (common := filter (fun x => mem x (q :: b)) (p :: a)).
  assert (Hz : In z common).
  { unfold common. apply filter_In. split; [right; exact Hza|].
    apply mem_In. right. exact Hzb. }
  assert (Hne : common <> []) by (intros E; rewrite E in Hz; exact Hz).
  assert (Hl : (length common =? 0)%nat = false).
  { apply Nat.eqb_neq. destruct common; [congruence|discriminate]. }
  rewrite Hl.
  assert (Hcom : forall e, In e common -> In e (p :: a) /\ In e (q :: b)).
  { intros e He. unfold common in He. apply filter_In in He.
    destruct He as [H1 H2]. apply mem_In in H2. split; assumption. }
  assert (Ha : (1 <= list_min (map (fun elem => index elem (p :: a)) common))%nat).
  { apply list_min_pos.
    - destruct common; [congruence|discriminate].
    - intros n Hn. apply in_map_iff in Hn. destruct Hn as (e & <- & He).
      destruct (Hcom e He) as [_ Hb]. cbn [index].
      destruct (String.eqb_spec e p) as [->|_]; [contradiction|lia]. }
  assert (Hb : (1 <= list_min (map (fun elem => index elem (q :: b)) common))%nat).
  { apply list_min_pos.
    - destruct common; [congruence|discriminate].
    - intros n Hn. apply in_map_iff in Hn. destruct Hn as (e & <- & He).
      destruct (Hcom e He) as [Ha' _]. cbn [index].
      destruct (String.eqb_spec e q) as [->|_]; [contradiction|lia]. }
  destruct (list_min (map (fun elem => index elem (p :: a)) common)); [lia|].
  destruct (list_min (map (fun elem => index elem (q :: b)) common)); [lia|].
  reflexivity.
Qed.

Lemma joining_branches_raise_witness :
  merge_two_patterns ["s1"%string; "s3"%string] ["s2"%string; "s3"%string]
  = RaisedValueError.
Proof.
  apply (@joining_branches_raise "s1" "s2" ["s3"%string] ["s3"%string]).
  - cbn. intros H. repeat (destruct H as [H|H]; [discriminate H|]). exact H.
  - cbn. intros H. repeat (destruct H as [H|H]; [discriminate H|]). exact H.
  - exists "s3"%string. split; left; reflexivity.
Defined.

(** *** Where the stops of a merged pattern come from *)

Lemma merge_overlap_from (n : nat) :
  forall a b o,
  (length a + length b <= n)%nat ->
  merge_overlap a b = Some o ->
  forall s, In s o -> In s a \/ In s b.
Proof.
  induction n as [|n IH]; intros a b o Hn E s Hs.
  - destruct a; [|cbn in Hn; lia]. rewrite merge_overlap_eq in E.
    inversion E; subst. destruct Hs.
  - rewrite merge_overlap_eq in E.
    destruct a as [|a_i a']; [inversion E; subst; destruct Hs|].
    destruct b as [|b_j b']; [inversion E; subst; destruct Hs|].
    cbn [length] in Hn.
    destruct (String.eqb a_i b_j).
    { destruct (merge_overlap a' b') as [o'|] eqn:E'; [|discriminate].
      cbn in E. inversion E; subst. destruct Hs as [<-|Hs].
      - left. left. reflexivity.
      - destruct (IH a' b' o' ltac:(lia) E' s Hs) as [H|H];
          [left; right; exact H | right; right; exact H]. }
    destruct (match a' with next :: _ => String.eqb next b_j | [] => false end).
    { destruct (merge_overlap a' (b_j :: b')) as [o'|] eqn:E'; [|discriminate].
      cbn in E. inversion E; subst. destruct Hs as [<-|Hs].
      - left. left. reflexivity.
      - destruct (IH a' (b_j :: b') o' ltac:(cbn [length]; lia) E' s Hs)
          as [H|H]; [left; right; exact H | right; exact H]. }
    destruct (match b' with next :: _ => String.eqb next a_i | [] => false end);
      [|discriminate].
    destruct (merge_overlap (a_i :: a') b') as [o'|] eqn:E'; [|discriminate].
    cbn in E. inversion E; subst. destruct Hs as [<-|Hs].
    + right. left. reflexivity.
    + destruct (IH (a_i :: a') b' o' ltac:(cbn [length]; lia) E' s Hs)
        as [H|H]; [left; exact H | right; right; exact H].
Qed.

Lemma In_firstn (n : nat) (l : pattern) (s : string) :
  In s (firstn n l) -> In s l.
Proof.
  intros H. rewrite <- (firstn_skipn n l). apply in_or_app. left. exact H.
Qed.

Lemma In_skipn (n : nat) (l : pattern) (s : string) :
  In s (skipn n l) -> In s l.
Proof.
  intros H. rewrite <- (firstn_skipn n l). apply in_or_app. right. exact H.
Qed.

Lemma In_slice (lo hi : nat) (l : pattern) (s : string) :
  In s (slice l lo hi) -> In s l.
Proof.
  unfold slice. intros H. apply In_skipn in H. apply In_firstn in H. exact H.
Qed.

Lemma merged_from (a b r : pattern) :
  merge_two_patterns a b = Merged r ->
  forall s, In s r -> In s a \/ In s b.
Proof.
  unfold merge_two_patterns.
  destruct (length (filter (fun x => mem x b) a) =? 0)%nat; [discriminate|].
  set (ia := map (fun elem => index elem a) (filter (fun x => mem x b) a)).
  set (ib := map (fun elem => index elem b) (filter (fun x => mem x b) a)).
  destruct (negb (list_min ia =? 0)%nat && negb (list_min ib =? 0)%nat);
    [discriminate|].
  destruct (negb (list_min ib =? 0)%nat).
  - destruct (merge_overlap (slice b (list_min ib) (list_max ib + 1))
                (slice a (list_min ia) (list_max ia + 1))) as [o|] eqn:E;
      [|discriminate].
    intros H s Hs. inversion H; subst. clear H.
    apply in_app_or in Hs. destruct Hs as [Hs|Hs].
    { right. apply In_firstn in Hs. exact Hs. }
    apply in_app_or in Hs. destruct Hs as [Hs|Hs].
    { destruct (@merge_overlap_from _ _ _ _ (le_n _) E s Hs) as [H|H];
        apply In_slice in H; [right | left]; exact H. }
    destruct (negb (list_max ia =? length a - 1)%nat);
      apply In_skipn in Hs; [left | right]; exact Hs.
  - destruct (merge_overlap (slice a (list_min ia) (list_max ia + 1))
                (slice b (list_min ib) (list_max ib + 1))) as [o|] eqn:E;
      [|discriminate].
    intros H s Hs. inversion H; subst. clear H.
    apply in_app_or in Hs. destruct Hs as [Hs|Hs].
    { left. apply In_firstn in Hs. exact Hs. }
    apply in_app_or in Hs. destruct Hs as [Hs|Hs].
    { destruct (@merge_overlap_from _ _ _ _ (le_n _) E s Hs) as [H|H];
        apply In_slice in H; [left | right]; exact H. }
    destruct (negb (list_max ib =? length b - 1)%nat);
      apply In_skipn in Hs; [right | left]; exact Hs.
Qed.

(** X21. Merging never invents a stop: when [merge_two_patterns] returns a
    pattern, every stop of it is a stop of one of the two patterns given. *)
Theorem merged_stops_are_given_stops (a b r : pattern) :
  merge_two_patterns a b = Merged r ->
  forall s, In s r -> In s a \/ In s b.
Proof. exact (@merged_from a b r). Qed.

Lemma merged_stops_are_given_stops_witness :
  In "s4"%string ["s1"%string; "s2"%string; "s3"%string]
  \/ In "s4"%string ["s2"%string; "s4"%string].
Proof.
  apply (@merged_stops_are_given_stops
           ["s1"%string; "s2"%string; "s3"%string]
           ["s2"%string; "s4"%string]
           ["s1"%string; "s2"%string; "s4"%string]).
  - reflexivity.
  - right. right. left. reflexivity.
Defined.

(** *** Merging the patterns of a route *)

Lemma try_merge_from (result : pattern) (queue : list pattern)
  (result_new : pattern) (queue' : list pattern) :
  try_merge result queue = Some (result_new, queue') ->
  (forall s, In s result_new ->
             In s result \/ exists p, In p queue /\ In s p)
  /\ (forall p, In p queue' -> In p queue)
  /\ length queue = S (length queue').
Proof.
  revert result_new queue'.
  induction queue as [|p queue IH]; intros result_new queue' E;
    [discriminate|].
  cbn [try_merge] in E.
  destruct (merge_two_patterns result p) as [r| |] eqn:Em.
  - inversion E; subst. repeat split.
    + intros s Hs. destruct (@merged_from _ _ _ Em s Hs) as [H|H];
        [left; exact H | right; exists p; split; [left; reflexivity|exact H]].
    + intros p' Hp'. right. exact Hp'.
  - destruct (try_merge result queue) as [[r rest]|]; [|discriminate].
    inversion E; subst.
    destruct (IH _ _ eq_refl) as (H1 & H2 & H3). repeat split.
    + intros s Hs. destruct (H1 s Hs) as [H|(p' & Hp' & Hsp)];
        [left; exact H | right; exists p'; split; [right; exact Hp'|exact Hsp]].
    + intros p' [<-|Hp']; [left; reflexivity | right; apply H2; exact Hp'].
    + cbn [length]. rewrite H3. reflexivity.
  - destruct (try_merge result queue) as [[r rest]|]; [|discriminate].
    inversion E; subst.
    destruct (IH _ _ eq_refl) as (H1 & H2 & H3). repeat split.
    + intros s Hs. destruct (H1 s Hs) as [H|(p' & Hp' & Hsp)];
        [left; exact H | right; exists p'; split; [right; exact Hp'|exact Hsp]].
    + intros p' [<-|Hp']; [left; reflexivity | right; apply H2; exact Hp'].
    + cbn [length]. rewrite H3. reflexivity.
Qed.

Lemma merge_loop_from (fuel : nat) :
  forall result queue s,
  In s (merge_loop fuel result queue) ->
  In s result \/ exists p, In p queue /\ In s p.
Proof.
  induction fuel as [|fuel IH]; intros result queue s Hs; [left; exact Hs|].
  cbn [merge_loop] in Hs.
  destruct (length queue =? 0)%nat; [left; exact Hs|].
  destruct (try_merge result queue) as [[r q]|] eqn:E; [|left; exact Hs].
  destruct (@try_merge_from _ _ _ _ E) as (H1 & H2 & _).
  destruct (IH r q s Hs) as [H|(p & Hp & Hsp)].
  - exact (H1 s H).
  - right. exists p. split; [apply H2; exact Hp | exact Hsp].
Qed.

Lemma rev_head_last (patterns : list pattern) (last : pattern)
  (others : list pattern) :
  rev patterns = last :: others -> patterns = removelast patterns ++ [last].
Proof.
  intros E. assert (H : patterns = rev others ++ [last]).
  { rewrite <- (rev_involutive patterns), E. reflexivity. }
  rewrite H at 2. rewrite removelast_last. exact H.
Qed.

(** X22. The pattern [merge_patterns] returns for a route holds only
    stops of the trips it was given: every stop of the result is a stop of
    one of the patterns. *)
Theorem route_pattern_stops_are_trip_stops (patterns : list pattern)
  (r : pattern) (s : string) :
  merge_patterns patterns = Some r ->
  In s r ->
  exists p, In p patterns /\ In s p.
Proof.
  unfold merge_patterns. destruct (rev patterns) as [|last others] eqn:E;
    [discriminate|].
  intros H Hs. inversion H; subst. clear H.
  pose proof (@rev_head_last _ _ _ E) as Hp.
  destruct (@merge_loop_from _ _ _ _ Hs) as [H|(p & Hin & Hsp)].
  - exists last. split; [|exact H]. rewrite Hp. apply in_or_app.
    right. left. reflexivity.
  - exists p. split; [|exact Hsp]. rewrite Hp. apply in_or_app.
    left. exact Hin.
Qed.

Lemma route_pattern_stops_are_trip_stops_witness :
  exists p,
    In p [["s3"%string; "s4"%string]; ["s1"%string; "s2"%string];
          ["s2"%string; "s3"%string]]
    /\ In "s4"%string p.
Proof.
  apply (@route_pattern_stops_are_trip_stops
           [["s3"%string; "s4"%string]; ["s1"%string; "s2"%string];
            ["s2"%string; "s3"%string]]
           ["s1"%string; "s2"%string; "s3"%string; "s4"%string] "s4").
  - reflexivity.
  - right. right. right. left. reflexivity.
Defined.

Lemma try_merge_none (result : pattern) (queue : list pattern) :
  (forall p r, In p queue -> merge_two_patterns result p <> Merged r) ->
  try_merge result queue = None.
Proof.
  induction queue as [|p queue IH]; intros H; [reflexivity|].
  cbn [try_merge].
  assert (Hn : try_merge result queue = None).
  { apply IH. intros p' r Hp'. apply H. right. exact Hp'. }
  destruct (merge_two_patterns result p) as [r| |] eqn:E.
  - exfalso. apply (H p r (or_introl eq_refl)). exact E.
  - rewrite Hn. reflexivity.
  - rewrite Hn. reflexivity.
Qed.

(** X23. Patterns that cannot be merged are dropped without a word: when
    the last pattern of the list merges with none of the others (the merge
    returns [None] or raises [ValueError] for each), [merge_patterns]
    returns that last pattern alone and the stops of the other trips are
    left out of the route. *)
Theorem unmergeable_patterns_are_dropped (others : list pattern)
  (last : pattern) :
  (forall p r, In p others -> merge_two_patterns last p <> Merged r) ->
  merge_patterns (others ++ [last]) = Some last.
Proof.
  intros H. unfold merge_patterns.
  rewrite rev_app_distr. cbn [rev app]. rewrite removelast_last.
  f_equal. destruct others as [|p others]; [reflexivity|].
  cbn [length merge_loop Nat.eqb].
  rewrite try_merge_none by exact H. reflexivity.
Qed.

Lemma unmergeable_patterns_are_dropped_witness :
  merge_patterns ([["s1"%string; "s2"%string]] ++ [["s3"%string]])
  = Some ["s3"%string].
Proof.
  apply (@unmergeable_patterns_are_dropped [["s1"%string; "s2"%string]]
           ["s3"%string]).
  intros p r [<-|[]]. discriminate.
Defined.


End MergeFacts.

(** * gtfs.py: the routes of a feed *)

Module RoutesFacts.
Import Routes.

Lemma get_set (routes : routes_dict) (k k' : string)
  (v : string * list string) :
  get (set routes k v) k' = if String.eqb k' k then Some v else get routes k'.
Proof.
  induction routes as [|[k0 v0] routes IH]; cbn [set get].
  - destruct (String.eqb k' k); reflexivity.
  - destruct (String.eqb_spec k k0) as [->|Hne]; cbn [get].
    + destruct (String.eqb k' k0); reflexivity.
    + rewrite IH. destruct (String.eqb_spec k' k0) as [->|Hne'].
      * destruct (String.eqb_spec k0 k) as [E|_]; [congruence|reflexivity].
      * reflexivity.
Qed.

Lemma get_add_row (routes : routes_dict) (r : row) (k : string) :
  get (add_row routes r) k =
    if String.eqb k (route_short_name r) then
      match get routes k with
      | Some (name, ids) => Some (name, ids ++ [route_id r])
      | None => Some (route_long_name r, [route_id r])
      end
    else get routes k.
Proof.
  unfold add_row.
  destruct (get routes (route_short_name r)) as [[name ids]|] eqn:E.
  - rewrite E, get_set.
    destruct (String.eqb_spec k (route_short_name r)) as [->|_];
      [rewrite E|]; reflexivity.
  - rewrite get_set, String.eqb_refl, !get_set.
    destruct (String.eqb_spec k (route_short_name r)) as [->|_];
      [rewrite E|]; reflexivity.
Qed.

Lemma get_fold (rows : list row) (routes : routes_dict) (k : string) :
  get (fold_left add_row rows routes) k =
    match get routes k, rows_of k rows with
    | Some (name, ids), rs => Some (name, ids ++ map route_id rs)
    | None, [] => None
    | None, r :: rs => Some (route_long_name r, map route_id (r :: rs))
    end.
Proof.
  revert routes. induction rows as [|r rows IH]; intros routes.
  - cbn. destruct (get routes k) as [[name ids]|]; [|reflexivity].
    rewrite app_nil_r. reflexivity.
  - cbn [fold_left]. rewrite IH, get_add_row. unfold rows_of. cbn [filter].
    destruct (String.eqb k (route_short_name r)).
    + destruct (get routes k) as [[name ids]|].
      * cbn [map]. rewrite <- app_assoc. reflexivity.
      * reflexivity.
    + reflexivity.
Qed.

(** X25. [get_routes] groups the rows of [routes.txt] by route number. A
    number that no row has is not in the result. For a number some row
    has, the entry holds the long name of the first row with that number
    and the route ids of all the rows with that number, in the order of
    the file; later long names for the same number are ignored. *)
Theorem routes_are_grouped_by_number (rows : list row) (route_num : string) :
  get (get_routes rows) route_num =
    match rows_of route_num rows with
    | [] => None
    | r :: rs => Some (route_long_name r, map route_id (r :: rs))
    end.
Proof.
  unfold get_routes. rewrite get_fold. reflexivity.
Qed.

End RoutesFacts.

(** * The generator's helpers *)

Module GenerateFacts.
Import Generate.

Lemma append_assoc (a b c : string) :
  String.append (String.append a b) c = String.append a (String.append b c).
Proof. induction a as [|x a IH]; cbn; [reflexivity | now rewrite IH]. Qed.

Lemma append_nil_r (a : string) : String.append a EmptyString = a.
Proof. induction a as [|x a IH]; cbn; [reflexivity | now rewrite IH]. Qed.

Lemma split_from_word (w : string) :
  no_space w = true ->
  forall word s,
    split_from word (String.append w s) = split_from (String.append word w) s.
Proof.
  induction w as [|c w IH]; cbn [no_space String.append]; intros H word s.
  - now rewrite append_nil_r.
  - apply andb_true_iff in H. destruct H as [Hc Hw].
    apply negb_true_iff in Hc. cbn [split_from]. rewrite Hc.
    rewrite (IH Hw). rewrite append_assoc. reflexivity.
Qed.

Lemma split_join (ws : list string) :
  Forall is_word ws -> split (String.concat " " ws) = ws.
Proof.
  unfold split. induction ws as [|w ws IH]; intros H; [reflexivity|].
  inversion H as [|? ? [Hne Hw] Hws]; subst.
  destruct ws as [|w' ws].
  - cbn [String.concat]. rewrite <- (append_nil_r w) at 1.
    rewrite (@split_from_word w Hw). cbn [String.append split_from].
    destruct w; [congruence | reflexivity].
  - change (String.concat " " (w :: w' :: ws))
      with (String.append w
              (String.append " " (String.concat " " (w' :: ws)))).
    rewrite (@split_from_word w Hw).
    cbn [String.append split_from].
    change (isspace " ") with true. cbn iota.
    rewrite (IH Hws). destruct w; [congruence | reflexivity].
Qed.

Lemma lower_char_not_space (c : ascii) :
  isspace c = true -> lower_char c = c.
Proof.
  destruct c as [[] [] [] [] [] [] [] []]; vm_compute; congruence.
Qed.

Lemma to_is_word (t : string) : lower t = "to"%string -> is_word t.
Proof.
  destruct t as [|a [|b [|]]]; cbn [lower]; try discriminate.
  intros H. injection H as Ha Hb. split; [discriminate|].
  cbn [no_space].
  destruct (isspace a) eqn:Sa.
  { rewrite (@lower_char_not_space a Sa) in Ha. subst a. discriminate Sa. }
  destruct (isspace b) eqn:Sb.
  { rewrite (@lower_char_not_space b Sb) in Hb. subst b. discriminate Sb. }
  reflexivity.
Qed.

Lemma index_of_to (origin : list string) (t : string) (rest : list string) :
  Forall (fun w => lower w <> "to"%string) origin ->
  lower t = "to"%string ->
  index_of "to" (map lower (origin ++ t :: rest)) = Some (length origin).
Proof.
  intros Ho Ht. induction Ho as [|w ws Hw Hws IH]; cbn [app map index_of length].
  - rewrite Ht. reflexivity.
  - destruct (String.eqb_spec "to" (lower w)) as [E|_]; [now symmetry in E|].
    rewrite IH. reflexivity.
Qed.

Lemma skipn_past (origin : list string) (t : string) (rest : list string) :
  skipn (length origin + 1) (origin ++ t :: rest) = rest.
Proof.
  induction origin as [|w ws IH]; [reflexivity | exact IH].
Qed.

(** X26. [fix_dir] keeps the destination of a direction name of the form
    "X to Y": when the name is made of words separated by single spaces,
    a word that is "to" in some letter case follows the words [origin],
    none of which is such a word, the result is the words after it joined
    by single spaces (pc_companion.py:501-507). *)
Theorem fix_dir_keeps_destination (origin : list string) (t : string)
    (destination : list string) :
  Forall is_word origin -> Forall is_word destination ->
  Forall (fun w => lower w <> "to"%string) origin -> lower t = "to"%string ->
  fix_dir (String.concat " " (origin ++ t :: destination)) =
    String.concat " " destination.
Proof.
  intros Ho Hd Hn Ht. unfold fix_dir.
  rewrite split_join.
  - rewrite (@index_of_to origin t destination Hn Ht). now rewrite skipn_past.
  - apply Forall_app. split; [exact Ho|].
    constructor; [now apply to_is_word | exact Hd].
Qed.

Lemma fix_dir_keeps_destination_witness :
  fix_dir "Melbourne University To Kew" = "Kew"%string.
Proof.
  apply (@fix_dir_keeps_destination
           ["Melbourne"%string; "University"%string] "To" ["Kew"%string]).
  - repeat constructor; discriminate.
  - repeat constructor; discriminate.
  - repeat constructor; discriminate.
  - reflexivity.
Defined.

(** Without a word that is "to" in some letter case, [fix_dir] returns
    the direction name as it is, white space included
    (pc_companion.py:502-507). *)
Theorem fix_dir_without_to (dir : string) :
  Forall (fun w => lower w <> "to"%string) (split dir) -> fix_dir dir = dir.
Proof.
  intros H. unfold fix_dir.
  assert (E : index_of "to" (map lower (split dir)) = None).
  { induction H as [|w ws Hw Hws IH]; [reflexivity|].
    cbn [map index_of].
    destruct (String.eqb_spec "to" (lower w)) as [E|_]; [now symmetry in E|].
    now rewrite IH. }
  now rewrite E.
Qed.

Lemma fix_dir_without_to_witness :
  fix_dir "  Box Hill  via Kew" = "  Box Hill  via Kew"%string.
Proof.
  apply fix_dir_without_to. repeat constructor; discriminate.
Defined.


Lemma enumerate_from_other (s : string) (ids : list string) :
  ~ In s ids ->
  forall idx d, dict_get (enumerate_from idx ids d) s = dict_get d s.
Proof.
  induction ids as [|id ids IH]; intros Hn idx d; [reflexivity|].
  cbn [enumerate_from]. rewrite IH by (intros H; apply Hn; now right).
  rewrite dict_get_set.
  destruct (String.eqb_spec s id) as [->|_]; [|reflexivity].
  exfalso. apply Hn. now left.
Qed.

Lemma enumerate_from_index (s : string) (ids : list string) :
  NoDup ids -> In s ids ->
  forall idx d,
    exists p, nth_error ids p = Some s /\
      dict_get (enumerate_from idx ids d) s = Some (idx + Z.of_nat p).
Proof.
  induction ids as [|id ids IH]; intros Hd Hin idx d; [destruct Hin|].
  inversion Hd as [|? ? Hnin Hd']; subst. cbn [enumerate_from].
  destruct (String.eqb_spec s id) as [->|Hne].
  - exists O. split; [reflexivity|].
    rewrite (@enumerate_from_other id ids Hnin), dict_get_set, String.eqb_refl.
    f_equal. lia.
  - destruct Hin as [E|Hin]; [now symmetry in E|].
    destruct (IH Hd' Hin (idx + 1) (dict_set d id idx)) as [p [Hp Hg]].
    exists (S p). split; [exact Hp|]. rewrite Hg. f_equal. lia.
Qed.

Lemma pack_H_unpack (n : Z) :
  0 <= n < 65536 ->
  exists lo hi, pack_H n = Some [lo; hi] /\ unpack_le [lo; hi] = n.
Proof.
  intros Hn. unfold pack_H.
  destruct (Z.leb_spec 0 n); [|lia]. destruct (Z.leb_spec n 65535); [|lia].
  cbn [andb]. eexists. eexists. split; [reflexivity|].
  unfold unpack_le. cbn [fold_right]. rewrite !byte_of_Z_val.
  rewrite (Z.mod_small (n / 256)).
  - pose proof (Z.div_mod n 256). lia.
  - split; [apply Z.div_pos; lia | apply Z.div_lt_upper_bound; lia].
Qed.

Lemma seq_loop_packs (stops_filtered stops : list string) :
  NoDup stops_filtered -> Z.of_nat (length stops_filtered) <= 65536 ->
  incl stops stops_filtered ->
  forall acc,
    exists data,
      seq_loop (stops_idx_of stops_filtered) stops acc = Packed (acc ++ data) /\
      length data = (2 * length stops)%nat /\
      map (fun n => nth_error stops_filtered (Z.to_nat n)) (unpack_H data) =
        map Some stops.
Proof.
  intros Hd Hlen. induction stops as [|stop stops IH]; intros Hin acc.
  - exists []. rewrite app_nil_r. repeat split; reflexivity.
  - assert (Hs : In stop stops_filtered) by (apply Hin; now left).
    destruct (@enumerate_from_index stop stops_filtered Hd Hs 0 [])
      as [p [Hp Hg]].
    assert (Hlt : (p < length stops_filtered)%nat)
      by (apply nth_error_Some; congruence).
    destruct (@pack_H_unpack (0 + Z.of_nat p)) as [lo [hi [Hk Hu]]]; [lia|].
    destruct (IH (fun x Hx => Hin x (or_intror Hx)) (acc ++ [lo; hi]))
      as [data [E [Hl Hm]]].
    exists (lo :: hi :: data). cbn [seq_loop]. unfold stops_idx_of at 1.
    rewrite Hg, Hk, E, <- app_assoc. repeat split.
    + cbn [length]. rewrite Hl. lia.
    + cbn [unpack_H map]. rewrite Hu, Hm.
      replace (Z.to_nat (0 + Z.of_nat p)) with p by lia.
      rewrite Hp. reflexivity.
Qed.

(** X27. The seq file of a direction holds, for every stop of the
    stopping pattern and in the pattern's order, the position of the stop
    among the filtered stops as a 16-bit little-endian value: when the
    filtered stops are distinct (they are the keys of a dict), are at most
    65536 and include every stop of the pattern, no [KeyError] or
    [struct.error] is raised, the file has two bytes per stop, and reading
    its values back as indices into the filtered stops gives the pattern
    (pc_companion.py:487, 517-518). *)
Theorem seq_file_indexes_stops (stops_filtered stops : list string) :
  NoDup stops_filtered -> Z.of_nat (length stops_filtered) <= 65536 ->
  incl stops stops_filtered ->
  exists data,
    seq_dat (stops_idx_of stops_filtered) stops = Packed data /\
    length data = (2 * length stops)%nat /\
    map (fun n => nth_error stops_filtered (Z.to_nat n)) (unpack_H data) =
      map Some stops.
Proof.
  intros Hd Hlen Hin.
  destruct (@seq_loop_packs stops_filtered stops Hd Hlen Hin [])
    as [data H].
  exists data. exact H.
Qed.

Lemma seq_file_indexes_stops_witness :
  exists data,
    seq_dat (stops_idx_of ["s7"%string; "s3"%string; "s9"%string])
            ["s9"%string; "s7"%string; "s9"%string] = Packed data /\
    length data = 6%nat /\
    map (fun n => nth_error ["s7"%string; "s3"%string; "s9"%string]
                    (Z.to_nat n)) (unpack_H data) =
      map Some ["s9"%string; "s7"%string; "s9"%string].
Proof.
  apply (@seq_file_indexes_stops
           ["s7"%string; "s3"%string; "s9"%string]
           ["s9"%string; "s7"%string; "s9"%string]).
  - repeat constructor; cbn [In]; intros H;
      repeat (destruct H as [H|H]; [discriminate H|]); exact H.
  - cbn [length]. lia.
  - intros x H. cbn [In] in *. tauto.
Defined.

(** A stop whose position among the filtered stops is 65536 or more does
    not fit the 16-bit field: [struct.pack] raises. *)
Lemma seq_loop_overflow (stops_idx : dict) (stop : string) (n : Z)
    (stops : list string) :
  dict_get stops_idx stop = Some n -> 65535 < n ->
  seq_dat stops_idx (stop :: stops) = RaisedStructError n.
Proof.
  intros Hg Hn. unfold seq_dat. cbn [seq_loop]. rewrite Hg. unfold pack_H.
  destruct (Z.leb_spec n 65535); [lia|]. rewrite andb_false_r. reflexivity.
Qed.

End GenerateFacts.

(** * ptvgtfs.py *)

Module PtvFacts.

Lemma no_one_character_mode (c : ascii) :
  dict_get Ptv._modes (String c EmptyString) = None.
Proof.
  destruct c as [[] [] [] [] [] [] [] []]; vm_compute; reflexivity.
Qed.

(** X28. [download_bufs] has no working case for a single mode name. Its
    test [modes is str] compares the argument with the class [str], so a
    mode name takes the branch for several modes, is iterated character by
    character, and the call raises [ValueError] for the first character,
    even when the name is a mode of [_modes] whose dataset is in the
    archive. The same name wrapped in a list, which is what
    [download_datasets] does to a str before the call, gives the dataset
    under the mode's name (ptvgtfs.py:52-68, 73-74). *)
Theorem mode_name_is_read_by_character (datasets_zip : Ptv.archive)
    (mode : string) (id : Z) (buf : list byte) :
  dict_get Ptv._modes mode = Some id -> datasets_zip id = Some buf ->
  (exists c rest, mode = String c rest /\
     Ptv.download_bufs datasets_zip (Ptv.Str mode) =
       inl (Ptv.ValueError (String c EmptyString))) /\
  Ptv.download_bufs datasets_zip (Ptv.normalise (Ptv.Str mode)) =
    inr (Ptv.Many [(mode, buf)]).
Proof.
  intros Hid Hbuf. split.
  - destruct mode as [|c rest]; [discriminate Hid|].
    exists c, rest. split; [reflexivity|].
    unfold Ptv.download_bufs.
    cbn [Ptv.is_str Ptv.characters Ptv.extract_all].
    unfold Ptv.extract_single. rewrite no_one_character_mode. reflexivity.
  - unfold Ptv.download_bufs.
    cbn [Ptv.normalise Ptv.is_str Ptv.extract_all].
    unfold Ptv.extract_single. rewrite Hid, Hbuf. reflexivity.
Qed.

Lemma mode_name_is_read_by_character_witness :
  (exists c rest, "MetroBus"%string = String c rest /\
     Ptv.download_bufs (fun _ => Some [x50; x4b]) (Ptv.Str "MetroBus") =
       inl (Ptv.ValueError (String c EmptyString))) /\
  Ptv.download_bufs (fun _ => Some [x50; x4b])
    (Ptv.normalise (Ptv.Str "MetroBus")) =
    inr (Ptv.Many [("MetroBus"%string, [x50; x4b])]).
Proof.
  apply (@mode_name_is_read_by_character
           (fun _ => Some [x50; x4b]) "MetroBus" 4 [x50; x4b]);
    reflexivity.
Defined.

End PtvFacts.

(** * The route specifiers of the command line *)

Module CliFacts.
Import Cli.

Lemma split_on_lacks (sep : ascii) (w : string) :
  lacks sep w = true -> split_on sep w = [w].
Proof.
  induction w as [|c w IH]; cbn [lacks split_on]; intros H; [reflexivity|].
  apply andb_true_iff in H. destruct H as [Hc Hw].
  apply negb_true_iff in Hc. rewrite Hc, (IH Hw). reflexivity.
Qed.

Lemma split_on_app (sep : ascii) (w s : string) :
  lacks sep w = true ->
  split_on sep (String.append w (String sep s)) = w :: split_on sep s.
Proof.
  induction w as [|c w IH]; cbn [lacks String.append split_on]; intros H.
  - rewrite Ascii.eqb_refl. reflexivity.
  - apply andb_true_iff in H. destruct H as [Hc Hw].
    apply negb_true_iff in Hc. rewrite Hc, (IH Hw). reflexivity.
Qed.

Lemma split_on_join (sep : ascii) (ws : list string) :
  ws <> [] -> Forall (fun w => lacks sep w = true) ws ->
  split_on sep (String.concat (String sep EmptyString) ws) = ws.
Proof.
  induction ws as [|w ws IH]; intros Hne H; [congruence|].
  inversion H as [|? ? Hw Hws]; subst.
  destruct ws as [|w' ws].
  - cbn [String.concat]. now apply split_on_lacks.
  - change (String.concat (String sep EmptyString) (w :: w' :: ws))
      with (String.append w
              (String sep (String.concat (String sep EmptyString) (w' :: ws)))).
    rewrite (@split_on_app sep w _ Hw), IH; [reflexivity | discriminate | exact Hws].
Qed.

Lemma lacks_app (c : ascii) (a b : string) :
  lacks c a = true -> lacks c b = true -> lacks c (String.append a b) = true.
Proof.
  induction a as [|x a IH]; cbn [lacks String.append]; intros Ha Hb;
    [exact Hb|].
  apply andb_true_iff in Ha. destruct Ha as [Hx Ha].
  rewrite Hx, (IH Ha Hb). reflexivity.
Qed.

Lemma lacks_join (c sep : ascii) (ws : list string) :
  Ascii.eqb sep c = false -> Forall (fun w => lacks c w = true) ws ->
  lacks c (String.concat (String sep EmptyString) ws) = true.
Proof.
  intros Hs H. induction H as [|w ws Hw Hws IH]; [reflexivity|].
  destruct ws as [|w' ws]; [exact Hw|].
  change (String.concat (String sep EmptyString) (w :: w' :: ws))
    with (String.append w
            (String sep (String.concat (String sep EmptyString) (w' :: ws)))).
  apply lacks_app; [exact Hw|]. cbn [lacks]. rewrite Hs. exact IH.
Qed.

Lemma key_lacks_colon (name : string) :
  has_key name PT_MODES = true -> lacks ":" name = true.
Proof.
  intros H. unfold has_key, PT_MODES in H. cbn [existsb fst] in H.
  repeat (apply orb_true_iff in H; destruct H as [H|H];
          [apply String.eqb_eq in H; subst; reflexivity|]).
  discriminate H.
Qed.

Lemma key_has_id (name : string) :
  has_key name PT_MODES = true ->
  exists id, dict_get Ptv._modes name = Some id.
Proof.
  intros H. unfold has_key, PT_MODES in H. cbn [existsb fst] in H.
  repeat (apply orb_true_iff in H; destruct H as [H|H];
          [apply String.eqb_eq in H; subst; eexists; reflexivity|]).
  discriminate H.
Qed.

Lemma assign_fresh (d : routes_table) (k : string) (v : list string) :
  ~ In k (map fst d) -> assign d k v = d ++ [(k, v)].
Proof.
  induction d as [|[k0 v0] d IH]; intros Hn; [reflexivity|].
  cbn [assign app]. cbn [map fst In] in Hn.
  destruct (String.eqb_spec k k0) as [->|_].
  - exfalso. apply Hn. now left.
  - rewrite IH; [reflexivity|]. intros H. apply Hn. now right.
Qed.

Lemma assign_Forall (P : string * list string -> Prop) (d : routes_table)
    (k : string) (v : list string) :
  Forall P d -> P (k, v) -> Forall P (assign d k v).
Proof.
  intros Hd Hk. induction Hd as [|[k0 v0] d H0 Hd IH]; cbn [assign].
  - constructor; [exact Hk | constructor].
  - destruct (String.eqb k k0); constructor; assumption.
Qed.

Lemma specifier_parsed (entry : string * list string)
    (specs : list string) (ROUTES : routes_table) :
  well_formed entry ->
  parse_routes (specifier entry :: specs) ROUTES =
    parse_routes specs (assign ROUTES (fst entry) (snd entry)).
Proof.
  destruct entry as [name rs]. intros [Hk [Hne Hp]]. cbn [fst snd] in *.
  cbn [parse_routes]. unfold specifier. cbn [fst snd].
  change (String.append ":" (String.concat "," rs))
    with (String ":" (String.concat "," rs)).
  rewrite (@split_on_app ":" name _ (key_lacks_colon _ Hk)).
  rewrite (@split_on_lacks ":" (String.concat "," rs)).
  2:{ apply lacks_join; [reflexivity|].
      eapply Forall_impl; [|exact Hp]. intros r [H _]. exact H. }
  cbn [length Nat.eqb negb nth]. rewrite Hk. cbn [negb].
  rewrite split_on_join.
  - destruct rs; [congruence | reflexivity].
  - exact Hne.
  - eapply Forall_impl; [|exact Hp]. intros r [_ H]. exact H.
Qed.

Lemma specifiers_parsed (table : routes_table) :
  NoDup (map fst table) -> Forall well_formed table ->
  forall ROUTES,
    (forall k, In k (map fst ROUTES) -> ~ In k (map fst table)) ->
    parse_routes (map specifier table) ROUTES = Parsed (ROUTES ++ table).
Proof.
  induction table as [|[name rs] table IH]; intros Hd Hw ROUTES Hdis.
  - cbn. now rewrite app_nil_r.
  - inversion Hd as [|? ? Hnin Hd']; subst.
    inversion Hw as [|? ? He Hw']; subst.
    cbn [map]. rewrite (@specifier_parsed (name, rs) _ _ He). cbn [fst snd].
    rewrite assign_fresh.
    2:{ intros H. apply (Hdis _ H). now left. }
    rewrite (IH Hd' Hw').
    + now rewrite <- app_assoc.
    + intros k Hk Hin. rewrite map_app in Hk. apply in_app_or in Hk.
      destruct Hk as [Hk|[<-|[]]].
      * apply (Hdis _ Hk). now right.
      * exact (Hnin Hin).
Qed.

(** X29. Route specifiers are read back as written: for distinct modes of
    [PT_MODES], each with a non-empty list of route numbers free of colons
    and commas, the specifiers [Mode:r1,r2,...] given with [-r] are all
    accepted and [ROUTES] maps every mode to its route numbers, modes and
    numbers in the order given (pc_companion.py:122-134). *)
Theorem specifiers_are_read_back (table : routes_table) :
  NoDup (map fst table) -> Forall well_formed table ->
  parse_routes (map specifier table) [] = Parsed table.
Proof.
  intros Hd Hw. rewrite (@specifiers_parsed table Hd Hw []); [reflexivity|].
  intros k [].
Qed.

Lemma specifiers_are_read_back_witness :
  parse_routes ["MetroBus:767,903"%string; "MetroTram:75"%string] [] =
    Parsed [("MetroBus"%string, ["767"%string; "903"%string]);
            ("MetroTram"%string, ["75"%string])].
Proof.
  apply (@specifiers_are_read_back
           [("MetroBus"%string, ["767"%string; "903"%string]);
            ("MetroTram"%string, ["75"%string])]).
  - repeat constructor; cbn [In map fst]; intros H;
      repeat (destruct H as [H|H]; [discriminate H|]); exact H.
  - repeat constructor; discriminate.
Defined.

Lemma split_on_nonempty (sep : ascii) (s : string) : split_on sep s <> [].
Proof.
  destruct s as [|c s]; cbn [split_on]; [discriminate|].
  destruct (Ascii.eqb c sep); [discriminate|].
  destruct (split_on sep s); discriminate.
Qed.

Lemma parse_routes_known (specs : list string) :
  forall ROUTES ROUTES',
    Forall known ROUTES -> parse_routes specs ROUTES = Parsed ROUTES' ->
    Forall known ROUTES'.
Proof.
  induction specs as [|mode specs IH]; intros ROUTES ROUTES' Hk H.
  - cbn in H. injection H as <-. exact Hk.
  - cbn [parse_routes] in H.
    destruct (negb (Nat.eqb (length (split_on ":" mode)) 2));
      [discriminate H|].
    destruct (has_key (nth 0 (split_on ":" mode) EmptyString) PT_MODES)
      eqn:Hkey; cbn [negb] in H; [|discriminate H].
    destruct (0 <? length (split_on "," (nth 1 (split_on ":" mode)
                                              EmptyString)))%nat.
    + refine (IH _ _ _ H). apply assign_Forall; [exact Hk|].
      split; [exact Hkey|]. cbn [fst snd].
      split; [now apply key_has_id | apply split_on_nonempty].
    + exact (IH _ _ Hk H).
Qed.

(** X30. Whatever specifiers are given, when they are accepted every mode
    recorded in [ROUTES] is a key of [PT_MODES] and of [ptvgtfs._modes], so
    the lookups [PT_MODES[mode]] and [ptv._modes[mode]] of the generator
    cannot raise [KeyError], and its list of routes is not empty: [split]
    returns at least one string, so [Mode:] records the list with one
    empty route number (pc_companion.py:125-134, 423-427, 529). *)
Theorem recorded_modes_are_known (specs : list string)
    (ROUTES : routes_table) :
  parse_routes specs [] = Parsed ROUTES -> Forall known ROUTES.
Proof.
  intros H. exact (@parse_routes_known specs [] ROUTES (Forall_nil _) H).
Qed.

Lemma recorded_modes_are_known_witness :
  Forall known [("MetroBus"%string, ["1"%string]);
                ("MetroTram"%string, [""%string])].
Proof.
  apply (@recorded_modes_are_known
           ["MetroBus:767,903"%string; "MetroTram:"%string;
            "MetroBus:1"%string]).
  reflexivity.
Defined.

End CliFacts.
